(** * A discrete-event simulation of a manufacturing line

    Shallow embedding of [ComputerSimulation_Project2.cpp]: the event
    scheduler ([Event], [Simulation]), the machine model ([Machine]) and the
    production line ([ManufacturingSystem]), followed by the properties the
    specification states about them.

    Modelling conventions.
    - Simulated time is a [double] in the source.  It is modelled by the
      rationals [Q]: the program only adds durations and compares times;
      every duration literal is a multiple of 0.5 and the shift duration is
      an [int], so the sums the program computes are exact in [double] as
      long as they stay below 2^52.  Beyond that range [double] rounds
      and [Q] does not: a property that names exact time values states the
      range as a hypothesis (see [double_exact]); the properties on the
      order of events and on counts do not depend on the values.
    - [int] members are [Z]; [productsCompleted] never exceeds the 200 units
      of the backlog and [currentShift] never exceeds max(shiftCount, 1)
      (see [inv_conservation] and [inv_shift]), so neither reaches the
      bounds of [int].
    - The lambdas stored in [std::function<void()>] are defunctionalised:
      one constructor of [Action] per lambda expression of the source,
      carrying the variables the lambda captures.
    - [std::cout] is a list of [Output] records, newest last.
    - [std::priority_queue] is the binary heap of [std::push_heap] and
      [std::pop_heap] over a [std::vector], as implemented by GNU libstdc++
      (the MSVC library uses the same sift-down-then-up scheme). *)

From Stdlib Require Import QArith Lqa Sorted.
From stdpp Require Import gmap strings list.

Local Open Scope nat_scope.

(** ** The binary heap behind [std::priority_queue] *)

Module Heap.
Section Heap.
Context {A : Type}.
(** The [Compare] object of the queue: [comp a b] is [a > b] for
    [std::greater]. *)
Variable comp : A → A → bool.

(** [std::__push_heap(first, holeIndex, topIndex, value, comp)]:
    the [while] loop moves parents down into the hole while they compare
    above [value].  [(holeIndex - 1) / 2] is 0 at [holeIndex = 0] both in
    C++ (truncating signed division) and on [nat].  The fuel bounds the
    iterations; [holeIndex] iterations always suffice. *)
Fixpoint __push_heap (fuel : nat) (first : list A)
    (holeIndex topIndex : nat) (value : A) : list A :=
  let parent := (holeIndex - 1) / 2 in
  match fuel, first !! parent with
  | S fuel', Some p =>
      if bool_decide (topIndex < holeIndex) && comp p value
      then __push_heap fuel' (<[holeIndex := p]> first) parent topIndex value
      else <[holeIndex := value]> first
  | _, _ => <[holeIndex := value]> first
  end.

(** [std::push_heap(first, last, comp)] on the whole vector. *)
Definition push_heap (c : list A) : list A :=
  match last c with
  | Some value => __push_heap (length c - 1) c (length c - 1) 0 value
  | None => c
  end.

(** First loop of [std::__adjust_heap]: the hole walks down, each time
    taking the child that does not compare above its sibling.  In the
    source [holeIndex] and [secondChild] are equal at the loop head, so one
    variable stands for both.  Returns the vector and the final hole. *)
Fixpoint adjust_down (fuel : nat) (first : list A) (holeIndex len : nat)
    : list A * nat :=
  match fuel with
  | 0 => (first, holeIndex)
  | S fuel' =>
      if bool_decide (holeIndex < (len - 1) / 2) then
        let secondChild := 2 * (holeIndex + 1) in
        match first !! secondChild, first !! (secondChild - 1) with
        | Some r, Some l =>
            let secondChild := if comp r l then secondChild - 1 else secondChild in
            let moved := if comp r l then l else r in
            adjust_down fuel' (<[holeIndex := moved]> first) secondChild len
        | _, _ => (first, holeIndex)
        end
      else (first, holeIndex)
  end.

(** [std::__adjust_heap(first, holeIndex, len, value, comp)].  The second
    [if] handles an even [len], where the last inner node has a left child
    only; [(len - 2) / 2] is negative for [len = 0] in C++, hence the guard
    [2 ≤ len]. *)
Definition __adjust_heap (first : list A) (holeIndex len : nat) (value : A)
    : list A :=
  let topIndex := holeIndex in
  let '(first, holeIndex) := adjust_down len first holeIndex len in
  let '(first, holeIndex) :=
    if Nat.even len && bool_decide (2 ≤ len)
       && bool_decide (holeIndex = (len - 2) / 2)
    then
      let secondChild := 2 * (holeIndex + 1) in
      match first !! (secondChild - 1) with
      | Some l => (<[holeIndex := l]> first, secondChild - 1)
      | None => (first, holeIndex)
      end
    else (first, holeIndex) in
  __push_heap holeIndex first holeIndex topIndex value.

(** [std::pop_heap(first, last, comp)] followed by [c.pop_back()]: the
    last element is taken out as [value], the top moves to the last slot
    (which [pop_back] then removes), and [__adjust_heap] runs on the range
    [first, last - 1), that is on the vector without its last element. *)
Definition pop_heap_pop_back (c : list A) : list A :=
  match last c with
  | Some value =>
      if bool_decide (1 < length c)
      then __adjust_heap (take (length c - 1) c) 0 (length c - 1) value
      else []
  | None => []
  end.

(** The three operations of [std::priority_queue] the program uses. *)
Definition pq_push (x : A) (c : list A) : list A := push_heap (c ++ [x]).
Definition pq_top (c : list A) : option A := head c.
Definition pq_pop (c : list A) : list A := pop_heap_pop_back c.

(** The heap order on a vector: no element compares below its parent
    (for [std::greater], no parent is greater than its child). *)
Definition is_heap (c : list A) : Prop :=
  ∀ i x y, 0 < i → c !! i = Some x → c !! ((i - 1) / 2) = Some y →
           comp y x = false.

(** The loop invariant of [__push_heap]: the vector with [v] in the hole
    [h] is a heap except, possibly, between the hole and its parent, and
    the children of the hole already respect the parent of the hole. *)
Definition hole_up (a : list A) (h : nat) (v : A) : Prop :=
  (∀ i x y, 0 < i → i ≠ h → <[h := v]> a !! i = Some x →
            <[h := v]> a !! ((i - 1) / 2) = Some y → comp y x = false) ∧
  (∀ i x y, 0 < h → 0 < i → (i - 1) / 2 = h → <[h := v]> a !! i = Some x →
            <[h := v]> a !! ((h - 1) / 2) = Some y → comp y x = false).
End Heap.
End Heap.

(** ** [Event] and [Simulation] *)

Definition Qltb (x y : Q) : bool := negb (Qle_bool y x).
Definition Qgtb (x y : Q) : bool := Qltb y x.

Section Scheduler.
(** [Act] stands for [std::function<void()>]. *)
Context {Act : Type}.

Record Event := mkEvent { time : Q; action : Act }.

(** [Event::operator>]: only the timestamps are compared. *)
Definition Event_gt (e other : Event) : bool := Qgtb (time e) (time other).

(** [eventQueue] is the vector under the [std::priority_queue], ordered
    by [std::greater<Event>], that is by [Event_gt]. *)
Record Simulation := mkSimulation {
  currentTime : Q;
  eventQueue : list Event
}.

Definition Simulation_new : Simulation :=
  {| currentTime := 0; eventQueue := [] |}.

Definition scheduleEvent (t : Q) (a : Act) (sim : Simulation) : Simulation :=
  {| currentTime := currentTime sim;
     eventQueue := Heap.pq_push Event_gt (mkEvent t a) (eventQueue sim) |}.

Definition getCurrentTime (sim : Simulation) : Q := currentTime sim.

(** [Simulation::run].  The actions act on the object that owns the
    simulation: [World] is that object, [sim_of] and [with_sim] read and
    write its [Simulation] member, [perform] calls an action. *)
Section Run.
Context {World : Type}.
Variable sim_of : World → Simulation.
Variable with_sim : Simulation → World → World.
Variable perform : Act → World → World.

(** One iteration of the [while] loop; [None] when the queue is empty. *)
Definition run_step (w : World) : option World :=
  match Heap.pq_top (eventQueue (sim_of w)) with
  | None => None
  | Some nextEvent =>
      let sim := {| currentTime := time nextEvent;
                    eventQueue := Heap.pq_pop Event_gt (eventQueue (sim_of w)) |} in
      Some (perform (action nextEvent) (with_sim sim w))
  end.

(** At most [fuel] iterations of the loop. *)
Fixpoint run (fuel : nat) (w : World) : World :=
  match fuel with
  | 0 => w
  | S fuel' =>
      match run_step w with
      | None => w
      | Some w' => run fuel' w'
      end
  end.
End Run.
End Scheduler.

Arguments Event : clear implicits.
Arguments Simulation : clear implicits.

(** ** [Machine] *)

(** The five [Machine] members of [ManufacturingSystem]; a value stands for
    the [this] pointer a lambda of [Machine] captures. *)
Inductive MachineId :=
  | RawMaterialHandler | Machining | Assembly | QualityControl | Packaging.

#[global] Instance MachineId_eq_dec : EqDecision MachineId.
Proof. solve_decision. Defined.

(** The lambdas of the program, one constructor each:
    - [StartShiftAction]: [[this]() { this->startShift(); }]
    - [EndShiftAction]: [[this]() { this->endShift(); }]
    - [RetryAction]: [[this, productType, shiftEndTime]() {
        this->startProcessing(productType, shiftEndTime); }]
    - [CompleteAction]: [[this, productType]() { isBusy = false; ...;
        onProcessComplete(productType); }] *)
Inductive Action :=
  | StartShiftAction
  | EndShiftAction
  | RetryAction (self : MachineId) (productType : string) (shiftEndTime : Q)
  | CompleteAction (self : MachineId) (productType : string).

(** The lines written to [std::cout]. *)
Inductive Output :=
  | MachineStarted (name productType : string) (t : Q)
  | MachineBrokeDown (name : string)
  | MachineFinished (name productType : string) (t : Q)
  | ProductFinished (productType : string) (t : Q)
  | ShiftStarted (shift : Z) (t : Q)
  | ShiftEnded (shift : Z) (t : Q)
  | SimulationResults (productsCompleted : Z) (t : Q).

(** [generator] is the sequence of samples that [distribution(generator)]
    will return, next one first.  [onProcessComplete] is fixed by the
    constructor of [ManufacturingSystem]; see [onProcessComplete] below. *)
Record Machine := mkMachine {
  name : string;
  processTimes : gmap string Q;
  setupTimes : gmap string Q;
  breakdownProbability : Q;
  maintenanceTime : Q;
  generator : nat → Q;
  isBusy : bool
}.

(** [std::unordered_map::operator[]]: an absent key reads as [0.0].  (The
    source also inserts the absent key; the maps are private and read only
    through [operator[]], so the insertion cannot be observed.) *)
Definition subscript (m : gmap string Q) (k : string) : Q := default 0%Q (m !! k).

Definition set_isBusy (b : bool) (m : Machine) : Machine :=
  {| name := name m; processTimes := processTimes m; setupTimes := setupTimes m;
     breakdownProbability := breakdownProbability m;
     maintenanceTime := maintenanceTime m; generator := generator m;
     isBusy := b |}.

(** [distribution(generator)]: the next sample, and the advanced engine. *)
Definition draw (m : Machine) : Q * Machine :=
  (generator m 0,
   {| name := name m; processTimes := processTimes m; setupTimes := setupTimes m;
      breakdownProbability := breakdownProbability m;
      maintenanceTime := maintenanceTime m;
      generator := λ n, generator m (S n);
      isBusy := isBusy m |}).

(** [Machine::startProcessing], on the machine [self], the simulation it
    refers to and [std::cout]. *)
Definition startProcessing (self : MachineId) (productType : string)
    (shiftEndTime : Q) (m : Machine) (sim : Simulation Action)
    (cout : list Output) : Machine * Simulation Action * list Output :=
  if isBusy m
     || Qgtb (getCurrentTime sim + subscript (processTimes m) productType) shiftEndTime
  then (m, sim, cout)
  else
    let m := set_isBusy true m in
    let cout := cout ++ [MachineStarted (name m) productType (getCurrentTime sim)] in
    let totalTime :=
      (subscript (processTimes m) productType + subscript (setupTimes m) productType)%Q in
    let '(sample, m) := draw m in
    if Qltb sample (breakdownProbability m) then
      let cout := cout ++ [MachineBrokeDown (name m)] in
      (m,
       scheduleEvent (getCurrentTime sim + maintenanceTime m)
         (RetryAction self productType shiftEndTime) sim,
       cout)
    else
      (m,
       scheduleEvent (getCurrentTime sim + totalTime)
         (CompleteAction self productType) sim,
       cout).

Definition isAvailable (m : Machine) : bool := negb (isBusy m).

(** ** [ManufacturingSystem] *)

Record ManufacturingSystem := mkManufacturingSystem {
  simulation : Simulation Action;
  rawMaterialHandler : Machine;
  machining : Machine;
  assembly : Machine;
  qualityControl : Machine;
  packaging : Machine;
  productsCompleted : Z;
  shiftDuration : Z;
  currentShift : Z;
  shiftCount : Z;
  shiftEndTime : Q;
  productQueue : list string;
  cout : list Output
}.

Definition machine (id : MachineId) (sys : ManufacturingSystem) : Machine :=
  match id with
  | RawMaterialHandler => rawMaterialHandler sys
  | Machining => machining sys
  | Assembly => assembly sys
  | QualityControl => qualityControl sys
  | Packaging => packaging sys
  end.

Definition set_simulation (sim : Simulation Action) (sys : ManufacturingSystem)
    : ManufacturingSystem :=
  mkManufacturingSystem sim (rawMaterialHandler sys) (machining sys)
    (assembly sys) (qualityControl sys) (packaging sys) (productsCompleted sys)
    (shiftDuration sys) (currentShift sys) (shiftCount sys) (shiftEndTime sys)
    (productQueue sys) (cout sys).

Definition set_machine (id : MachineId) (m : Machine) (sys : ManufacturingSystem)
    : ManufacturingSystem :=
  mkManufacturingSystem (simulation sys)
    (if id is RawMaterialHandler then m else rawMaterialHandler sys)
    (if id is Machining then m else machining sys)
    (if id is Assembly then m else assembly sys)
    (if id is QualityControl then m else qualityControl sys)
    (if id is Packaging then m else packaging sys)
    (productsCompleted sys) (shiftDuration sys) (currentShift sys)
    (shiftCount sys) (shiftEndTime sys) (productQueue sys) (cout sys).

Definition set_productsCompleted (n : Z) (sys : ManufacturingSystem)
    : ManufacturingSystem :=
  mkManufacturingSystem (simulation sys) (rawMaterialHandler sys) (machining sys)
    (assembly sys) (qualityControl sys) (packaging sys) n
    (shiftDuration sys) (currentShift sys) (shiftCount sys) (shiftEndTime sys)
    (productQueue sys) (cout sys).

Definition set_currentShift (n : Z) (sys : ManufacturingSystem)
    : ManufacturingSystem :=
  mkManufacturingSystem (simulation sys) (rawMaterialHandler sys) (machining sys)
    (assembly sys) (qualityControl sys) (packaging sys) (productsCompleted sys)
    (shiftDuration sys) n (shiftCount sys) (shiftEndTime sys)
    (productQueue sys) (cout sys).

Definition set_shiftEndTime (t : Q) (sys : ManufacturingSystem)
    : ManufacturingSystem :=
  mkManufacturingSystem (simulation sys) (rawMaterialHandler sys) (machining sys)
    (assembly sys) (qualityControl sys) (packaging sys) (productsCompleted sys)
    (shiftDuration sys) (currentShift sys) (shiftCount sys) t
    (productQueue sys) (cout sys).

Definition set_productQueue (q : list string) (sys : ManufacturingSystem)
    : ManufacturingSystem :=
  mkManufacturingSystem (simulation sys) (rawMaterialHandler sys) (machining sys)
    (assembly sys) (qualityControl sys) (packaging sys) (productsCompleted sys)
    (shiftDuration sys) (currentShift sys) (shiftCount sys) (shiftEndTime sys)
    q (cout sys).

Definition set_cout (out : list Output) (sys : ManufacturingSystem)
    : ManufacturingSystem :=
  mkManufacturingSystem (simulation sys) (rawMaterialHandler sys) (machining sys)
    (assembly sys) (qualityControl sys) (packaging sys) (productsCompleted sys)
    (shiftDuration sys) (currentShift sys) (shiftCount sys) (shiftEndTime sys)
    (productQueue sys) out.

Definition print (o : Output) (sys : ManufacturingSystem) : ManufacturingSystem :=
  set_cout (cout sys ++ [o]) sys.

Definition now (sys : ManufacturingSystem) : Q := getCurrentTime (simulation sys).

(** A call [id.startProcessing(productType, shiftEndTime)] on a member
    machine of the system. *)
Definition call_startProcessing (id : MachineId) (productType : string)
    (deadline : Q) (sys : ManufacturingSystem) : ManufacturingSystem :=
  let '(m, sim, out) :=
    startProcessing id productType deadline (machine id sys) (simulation sys)
      (cout sys) in
  set_cout out (set_simulation sim (set_machine id m sys)).

Definition startProduction (sys : ManufacturingSystem) : ManufacturingSystem :=
  match productQueue sys with
  | [] => sys
  | productType :: rest =>
      let sys := set_productQueue rest sys in
      call_startProcessing RawMaterialHandler productType (shiftEndTime sys) sys
  end.

Definition startMachining (productType : string) (sys : ManufacturingSystem) :=
  call_startProcessing Machining productType (shiftEndTime sys) sys.

Definition startAssembly (productType : string) (sys : ManufacturingSystem) :=
  call_startProcessing Assembly productType (shiftEndTime sys) sys.

Definition startQualityControl (productType : string) (sys : ManufacturingSystem) :=
  call_startProcessing QualityControl productType (shiftEndTime sys) sys.

Definition startPackaging (productType : string) (sys : ManufacturingSystem) :=
  call_startProcessing Packaging productType (shiftEndTime sys) sys.

Definition finishProduct (productType : string) (sys : ManufacturingSystem)
    : ManufacturingSystem :=
  let sys := set_productsCompleted (productsCompleted sys + 1) sys in
  let sys := print (ProductFinished productType (now sys)) sys in
  if Qltb (now sys) (shiftEndTime sys) then startProduction sys else sys.

Definition printResults (sys : ManufacturingSystem) : ManufacturingSystem :=
  print (SimulationResults (productsCompleted sys) (now sys)) sys.

(** [shiftEndTime] is the sum of a [double] and an [int]; the sum is exact
    here, and in the source as long as it is an integer of magnitude at
    most 2^53. *)
Definition startShift (sys : ManufacturingSystem) : ManufacturingSystem :=
  let sys := set_currentShift (currentShift sys + 1) sys in
  let sys := set_shiftEndTime (now sys + inject_Z (shiftDuration sys)) sys in
  let sys := print (ShiftStarted (currentShift sys) (now sys)) sys in
  let sys :=
    set_simulation
      (scheduleEvent (shiftEndTime sys) EndShiftAction (simulation sys)) sys in
  startProduction sys.

Definition endShift (sys : ManufacturingSystem) : ManufacturingSystem :=
  let sys := print (ShiftEnded (currentShift sys) (now sys)) sys in
  if (currentShift sys <? shiftCount sys)%Z then
    set_simulation (scheduleEvent (now sys) StartShiftAction (simulation sys)) sys
  else printResults sys.

(** The [onProcessComplete] callback each machine gets from the constructor
    of [ManufacturingSystem]. *)
Definition onProcessComplete (self : MachineId) (productType : string)
    (sys : ManufacturingSystem) : ManufacturingSystem :=
  match self with
  | RawMaterialHandler => startMachining productType sys
  | Machining => startAssembly productType sys
  | Assembly => startQualityControl productType sys
  | QualityControl => startPackaging productType sys
  | Packaging => finishProduct productType sys
  end.

(** The first two statements of the completion lambda of machine [self]:
    [isBusy = false] and the line written to [std::cout]. *)
Definition finishProcessing (self : MachineId) (productType : string)
    (sys : ManufacturingSystem) : ManufacturingSystem :=
  let sys := set_machine self (set_isBusy false (machine self sys)) sys in
  print (MachineFinished (name (machine self sys)) productType (now sys)) sys.

(** Calling a stored action. *)
Definition perform (a : Action) (sys : ManufacturingSystem) : ManufacturingSystem :=
  match a with
  | StartShiftAction => startShift sys
  | EndShiftAction => endShift sys
  | RetryAction self productType shiftEndTime =>
      call_startProcessing self productType shiftEndTime sys
  | CompleteAction self productType =>
      onProcessComplete self productType (finishProcessing self productType sys)
  end.

(** The loop of [simulation.run()] with the actions of the system. *)
Definition step (sys : ManufacturingSystem) : option ManufacturingSystem :=
  run_step simulation set_simulation perform sys.

Definition simulation_run (fuel : nat) (sys : ManufacturingSystem)
    : ManufacturingSystem :=
  run simulation set_simulation perform fuel sys.

(** [ManufacturingSystem::run]: the state on entry to the loop, and the loop. *)
Definition run_entry (sys : ManufacturingSystem) : ManufacturingSystem :=
  set_simulation (scheduleEvent 0 StartShiftAction (simulation sys)) sys.

Definition ManufacturingSystem_run (fuel : nat) (sys : ManufacturingSystem)
    : ManufacturingSystem :=
  simulation_run fuel (run_entry sys).

(** The constructor.  The output of a default-constructed
    [std::default_random_engine] is fixed by the C++ library in use, so the
    sample sequences are a parameter [gens].  The constructor leaves
    [shiftEndTime] uninitialised; [startShift] assigns it before anything
    reads it, and the model starts it at 0. *)
Definition productTimes (a b : Q) : gmap string Q :=
  <["ProductA" := a]> (<["ProductB" := b]> ∅).

Definition initialQueue : list string :=
  concat (replicate 100 ["ProductA"; "ProductB"]).

Definition ManufacturingSystem_new (shiftDuration shiftCount : Z)
    (gens : MachineId → nat → Q) : ManufacturingSystem :=
  {| simulation := Simulation_new;
     rawMaterialHandler :=
       mkMachine "Raw Material Handler" (productTimes 2.0 3.0) (productTimes 1.0 1.5)
         0.1 1.0 (gens RawMaterialHandler) false;
     machining :=
       mkMachine "Machining" (productTimes 3.0 4.0) (productTimes 1.0 2.0)
         0.1 1.5 (gens Machining) false;
     assembly :=
       mkMachine "Assembly" (productTimes 4.0 5.0) (productTimes 1.5 2.5)
         0.1 2.0 (gens Assembly) false;
     qualityControl :=
       mkMachine "Quality Control" (productTimes 1.0 1.5) (productTimes 0.5 1.0)
         0.05 0.5 (gens QualityControl) false;
     packaging :=
       mkMachine "Packaging" (productTimes 2.0 2.5) (productTimes 0.5 1.0)
         0.05 0.5 (gens Packaging) false;
     productsCompleted := 0;
     shiftDuration := shiftDuration;
     currentShift := 0;
     shiftCount := shiftCount;
     shiftEndTime := 0;
     productQueue := initialQueue;
     cout := [] |}.

(** ** Notions used to state the properties *)

(** A world that exercises the scheduler alone: an action is a number, and
    calling it appends the number to a log. *)
Definition LogWorld : Type := Simulation nat * list nat.

Definition log_with_sim (sim : Simulation nat) (w : LogWorld) : LogWorld :=
  (sim, w.2).

Definition log_perform (n : nat) (w : LogWorld) : LogWorld := (w.1, w.2 ++ [n]).

Definition schedule_all (evs : list (Q * nat)) (sim : Simulation nat)
    : Simulation nat :=
  foldl (λ sim ev, scheduleEvent ev.1 ev.2 sim) sim evs.

(** The order in which [Simulation::run] calls the actions of [evs], all
    scheduled, in list order, before the run. *)
Definition executed_order (evs : list (Q * nat)) : list nat :=
  (run fst log_with_sim log_perform (length evs)
     (schedule_all evs Simulation_new, [])).2.

(** FIFO tie-break on [evs]: of two events with equal timestamps, the one
    scheduled first is executed first. *)
Definition fifo_ties (evs : list (Q * nat)) : Prop :=
  ∀ i j t1 t2 a b,
    i < j → evs !! i = Some (t1, a) → evs !! j = Some (t2, b) → (t1 == t2)%Q →
    ∃ k l, k < l ∧ executed_order evs !! k = Some a
           ∧ executed_order evs !! l = Some b.

(** Four events for the same time, scheduled in the order 1, 2, 3, 4. *)
Definition four_ties : list (Q * nat) := [(0%Q, 1); (0%Q, 2); (0%Q, 3); (0%Q, 4)].

(** The guard the specification asks of [scheduleEvent]: an event for a
    time before current time does not enter the queue. *)
Definition past_events_rejected : Prop :=
  ∀ (t : Q) (a : Action) (sim : Simulation Action),
    (t < currentTime sim)%Q →
    mkEvent t a ∉ eventQueue (scheduleEvent t a sim).

(** Sample sequences: no sample is ever below a breakdown probability. *)
Definition never_breaks : MachineId → nat → Q := λ _ _, 0.5%Q.

(** The first sample of each machine is below its breakdown probability,
    the later ones are not. *)
Definition breaks_once : MachineId → nat → Q :=
  λ _ n, match n with 0 => 0.01%Q | S _ => 0.9%Q end.

(** The guard of [startProcessing]: the machine is not idle, or the unit
    cannot be processed before the deadline. *)
Definition rejects (p : string) (d : Q) (m : Machine) (sim : Simulation Action)
    : Prop :=
  isBusy m = true ∨ (d < getCurrentTime sim + subscript (processTimes m) p)%Q.

(** The machine as [startProcessing] leaves it when it accepts a unit. *)
Definition accepting (m : Machine) : Machine := (draw (set_isBusy true m)).2.

(** The queue of a simulation is in heap order. *)
Definition heap_ok {Act} (q : list (Event Act)) : Prop :=
  Heap.is_heap Event_gt q.

(** The states of a run: [reaches sys0 sys] when the loop of
    [Simulation::run], started in [sys0], gets to [sys] after some number of
    iterations. *)
Inductive reaches (sys0 : ManufacturingSystem) : ManufacturingSystem → Prop :=
  | reaches_refl : reaches sys0 sys0
  | reaches_step sys sys' :
      reaches sys0 sys → step sys = Some sys' → reaches sys0 sys'.

(** No duration of the configuration is negative. *)
Definition machine_nonneg (m : Machine) : Prop :=
  (0 <= maintenanceTime m)%Q ∧
  ∀ p, (0 <= subscript (processTimes m) p + subscript (setupTimes m) p)%Q.

Definition durations_nonneg (sys : ManufacturingSystem) : Prop :=
  (0 <= shiftDuration sys)%Z ∧ ∀ id, machine_nonneg (machine id sys).

(** No pending event is for a time before current time. *)
Definition inv_time (sys : ManufacturingSystem) : Prop :=
  heap_ok (eventQueue (simulation sys)) ∧
  Forall (λ e, now sys <= time e)%Q (eventQueue (simulation sys)) ∧
  durations_nonneg sys.

(** Counting the pending events of a kind. *)
Definition is_StartShift (a : Action) : nat :=
  match a with StartShiftAction => 1 | _ => 0 end.

Definition is_EndShift (a : Action) : nat :=
  match a with EndShiftAction => 1 | _ => 0 end.

Definition is_machine_event (a : Action) : nat :=
  match a with RetryAction _ _ _ | CompleteAction _ _ => 1 | _ => 0 end.

Definition count (f : Action → nat) (q : list (Event Action)) : nat :=
  sum_list_with (λ e, f (action e)) q.

(** [f] does not count the events of machines. *)
Definition ignores_machines (f : Action → nat) : Prop :=
  ∀ a, is_machine_event a = 1 → f a = 0.

(** The number of shifts a run goes through: [shiftCount], and one even if
    [shiftCount] is below one. *)
Definition last_shift (sys : ManufacturingSystem) : Z := Z.max (shiftCount sys) 1.

(** At most one shift event is pending, [currentShift] is within bounds,
    and a pending [startShift] has a shift left to start. *)
Definition inv_shift (sys : ManufacturingSystem) : Prop :=
  let q := eventQueue (simulation sys) in
  count is_StartShift q + count is_EndShift q ≤ 1 ∧
  (0 <= currentShift sys <= last_shift sys)%Z ∧
  (count is_StartShift q = 1 → (currentShift sys < last_shift sys)%Z).

(** The two invariants as the specification words them, for the run of
    the system [sys0]: current time never moves backward from one
    iteration of the loop to the next, and [currentShift] never exceeds
    [shiftCount]. *)
Definition time_never_moves_backward (sys0 : ManufacturingSystem) : Prop :=
  ∀ n, (now (ManufacturingSystem_run n sys0)
        <= now (ManufacturingSystem_run (S n) sys0))%Q.

Definition currentShift_within_shiftCount (sys0 : ManufacturingSystem) : Prop :=
  ∀ sys, reaches (run_entry sys0) sys → (currentShift sys <= shiftCount sys)%Z.

(** The pending events of machine [id]. *)
Definition event_of (id : MachineId) (a : Action) : nat :=
  match a with
  | RetryAction self _ _ | CompleteAction self _ => if decide (self = id) then 1 else 0
  | _ => 0
  end.

(** An idle machine has no pending event, a busy one at most one. *)
Definition inv_busy (sys : ManufacturingSystem) : Prop :=
  ∀ id, count (event_of id) (eventQueue (simulation sys))
        ≤ if isBusy (machine id sys) then 1 else 0.

(** Two machine states with the same configuration. *)
Definition same_config (m m' : Machine) : Prop :=
  name m = name m' ∧ processTimes m = processTimes m' ∧
  setupTimes m = setupTimes m' ∧
  breakdownProbability m = breakdownProbability m' ∧
  maintenanceTime m = maintenanceTime m'.

(** The names the constructor gives to the machines. *)
Definition machine_name (id : MachineId) : string :=
  match id with
  | RawMaterialHandler => "Raw Material Handler"
  | Machining => "Machining"
  | Assembly => "Assembly"
  | QualityControl => "Quality Control"
  | Packaging => "Packaging"
  end.

Definition names_ok (sys : ManufacturingSystem) : Prop :=
  ∀ id, name (machine id sys) = machine_name id.

(** The number of units machine [id] has started, read off [std::cout]. *)
Definition is_started (id : MachineId) (o : Output) : nat :=
  match o with
  | MachineStarted n _ _ => if decide (n = machine_name id) then 1 else 0
  | _ => 0
  end.

Definition started (id : MachineId) (sys : ManufacturingSystem) : nat :=
  sum_list_with (is_started id) (cout sys).

(** The number of units taken from a backlog of [backlog] units. *)
Definition pulled (backlog : nat) (sys : ManufacturingSystem) : nat :=
  backlog - length (productQueue sys).

(** The units in the line: each has one pending event of a machine. *)
Definition units (sys : ManufacturingSystem) : nat :=
  count is_machine_event (eventQueue (simulation sys)).

(** Units are conserved: the units completed and those in the line (one
    pending event each) have been started by the first machine, and the
    units it started have been taken from the backlog. *)
Definition inv_conservation (backlog : nat) (sys : ManufacturingSystem) : Prop :=
  (0 <= productsCompleted sys)%Z ∧
  (productsCompleted sys + Z.of_nat (units sys)
   <= Z.of_nat (started RawMaterialHandler sys))%Z ∧
  started RawMaterialHandler sys + length (productQueue sys) ≤ backlog.

Definition inv_line (backlog : nat) (sys : ManufacturingSystem) : Prop :=
  names_ok sys ∧ inv_busy sys ∧ inv_conservation backlog sys.

(** A measure of the work left, which every iteration of the loop lowers:
    each pending event, each idle machine and each unit of the backlog
    weighs what it can still cause. *)
Definition stage_weight (id : MachineId) : nat :=
  match id with
  | RawMaterialHandler => 6
  | Machining => 5
  | Assembly => 4
  | QualityControl => 3
  | Packaging => 2
  end.

Definition shifts_left (sys : ManufacturingSystem) : nat :=
  Z.to_nat (shiftCount sys - currentShift sys).

Definition event_weight (left : nat) (a : Action) : nat :=
  match a with
  | StartShiftAction => 2 * Nat.max left 1
  | EndShiftAction => 2 * left + 1
  | RetryAction self _ _ | CompleteAction self _ => stage_weight self
  end.

Definition queue_weight (left : nat) (q : list (Event Action)) : nat :=
  sum_list_with (λ e, event_weight left (action e)) q.

Definition idle_weight (m : Machine) : nat := if isBusy m then 0 else 1.

Definition idle_machines (sys : ManufacturingSystem) : nat :=
  idle_weight (rawMaterialHandler sys) + idle_weight (machining sys)
  + idle_weight (assembly sys) + idle_weight (qualityControl sys)
  + idle_weight (packaging sys).

Definition potential (sys : ManufacturingSystem) : nat :=
  queue_weight (shifts_left sys) (eventQueue (simulation sys))
  + idle_machines sys + 6 * length (productQueue sys).

(** Forgetting the random engines: two systems with the same image differ
    in the samples their machines will draw, and in nothing else. *)
Definition erase_generator (m : Machine) : Machine :=
  mkMachine (name m) (processTimes m) (setupTimes m) (breakdownProbability m)
    (maintenanceTime m) (λ _, 0%Q) (isBusy m).

Definition erase_generators (sys : ManufacturingSystem) : ManufacturingSystem :=
  mkManufacturingSystem (simulation sys)
    (erase_generator (rawMaterialHandler sys)) (erase_generator (machining sys))
    (erase_generator (assembly sys)) (erase_generator (qualityControl sys))
    (erase_generator (packaging sys)) (productsCompleted sys)
    (shiftDuration sys) (currentShift sys) (shiftCount sys) (shiftEndTime sys)
    (productQueue sys) (cout sys).

(** A machine that never breaks down: its breakdown probability is 0, and
    the samples, drawn from [0, 1), are not negative. *)
Definition never_breaks_down (m : Machine) : Prop :=
  (breakdownProbability m == 0)%Q ∧ ∀ n, (0 <= generator m n)%Q.

Definition no_breakdown (sys : ManufacturingSystem) : Prop :=
  ∀ id, never_breaks_down (machine id sys).

(** The system with the breakdown probability of every machine set to [bp]. *)
Definition set_breakdownProbability (bp : Q) (m : Machine) : Machine :=
  mkMachine (name m) (processTimes m) (setupTimes m) bp (maintenanceTime m)
    (generator m) (isBusy m).

Definition with_breakdownProbability (bp : Q) (sys : ManufacturingSystem)
    : ManufacturingSystem :=
  mkManufacturingSystem (simulation sys)
    (set_breakdownProbability bp (rawMaterialHandler sys))
    (set_breakdownProbability bp (machining sys))
    (set_breakdownProbability bp (assembly sys))
    (set_breakdownProbability bp (qualityControl sys))
    (set_breakdownProbability bp (packaging sys)) (productsCompleted sys)
    (shiftDuration sys) (currentShift sys) (shiftCount sys) (shiftEndTime sys)
    (productQueue sys) (cout sys).

(** Samples in [0, 1) that differ from [never_breaks]. *)
Definition other_samples : MachineId → nat → Q :=
  λ id n, match id, n with
          | RawMaterialHandler, O => 0%Q
          | Packaging, _ => 0.02%Q
          | _, _ => 0.75%Q
          end.

Definition time_le {Act} (x y : Event Act) : Prop := (time x <= time y)%Q.

(** ** Notions used to state further properties *)

(** The pending completion events of machine [id]. *)
Definition is_complete_of (id : MachineId) (a : Action) : nat :=
  match a with
  | CompleteAction self _ => if decide (self = id) then 1 else 0
  | _ => 0
  end.

(** Machine [id] is busy and no event that would make it idle is pending. *)
Definition out_of_order (id : MachineId) (sys : ManufacturingSystem) : Prop :=
  isBusy (machine id sys) = true ∧
  count (is_complete_of id) (eventQueue (simulation sys)) = 0.

(** The machine [onProcessComplete] of machine [self] hands the unit to;
    the last machine hands it to [finishProduct]. *)
Definition successor (self : MachineId) : option MachineId :=
  match self with
  | RawMaterialHandler => Some Machining
  | Machining => Some Assembly
  | Assembly => Some QualityControl
  | QualityControl => Some Packaging
  | Packaging => None
  end.

(** The lines [startProcessing] writes. *)
Definition is_start_line (o : Output) : bool :=
  match o with
  | MachineStarted _ _ _ | MachineBrokeDown _ => true
  | _ => false
  end.

(** The lines an action writes before any [startProcessing] it leads to. *)
Definition head_lines (a : Action) (sys : ManufacturingSystem) : list Output :=
  match a with
  | StartShiftAction => [ShiftStarted (currentShift sys + 1) (now sys)]
  | EndShiftAction =>
      ShiftEnded (currentShift sys) (now sys)
      :: if (currentShift sys <? shiftCount sys)%Z then []
         else [SimulationResults (productsCompleted sys) (now sys)]
  | RetryAction _ _ _ => []
  | CompleteAction self p =>
      MachineFinished (name (machine self sys)) p (now sys)
      :: match self with
         | Packaging => [ProductFinished p (now sys)]
         | _ => []
         end
  end.

(** The shift events an action schedules. *)
Definition head_events (a : Action) (sys : ManufacturingSystem)
    : list (Event Action) :=
  match a with
  | StartShiftAction =>
      [mkEvent (now sys + inject_Z (shiftDuration sys)) EndShiftAction]
  | EndShiftAction =>
      if (currentShift sys <? shiftCount sys)%Z
      then [mkEvent (now sys) StartShiftAction] else []
  | _ => []
  end.

Definition is_results (o : Output) : nat :=
  match o with SimulationResults _ _ => 1 | _ => 0 end.

Definition results_printed (sys : ManufacturingSystem) : nat :=
  sum_list_with is_results (cout sys).

Definition is_product_finished (o : Output) : nat :=
  match o with ProductFinished _ _ => 1 | _ => 0 end.

Definition products_printed (sys : ManufacturingSystem) : nat :=
  sum_list_with is_product_finished (cout sys).

(** The timetable of the shifts, of duration [d], on a line of the output:
    shift [k] starts at [(k - 1) * d] and ends at [k * d], and the results
    are printed at the end of shift [last]. *)
Definition line_on_time (d last : Z) (o : Output) : Prop :=
  match o with
  | ShiftStarted k t => (1 <= k <= last)%Z ∧ (t == inject_Z ((k - 1) * d))%Q
  | ShiftEnded k t => (1 <= k <= last)%Z ∧ (t == inject_Z (k * d))%Q
  | SimulationResults _ t => (t == inject_Z (last * d))%Q
  | _ => True
  end.

(** The times at which the sums of [startShift] are exact in the source:
    an integer of magnitude at most 2^53 is a [double], and the sum of two
    [double]s that is such an integer is computed without rounding. *)
Definition double_exact (t : Q) : Prop :=
  ∃ n : Z, (Z.abs n <= 2 ^ 53)%Z ∧ (t == inject_Z n)%Q.

Definition line_exact (o : Output) : Prop :=
  match o with
  | ShiftStarted _ t | ShiftEnded _ t | SimulationResults _ t => double_exact t
  | _ => True
  end.

Definition is_shift_event (a : Action) : nat := is_StartShift a + is_EndShift a.

(** One shift event is pending until the results are printed, and it is
    due at the boundary of the current shift. *)
Definition inv_timetable (sys : ManufacturingSystem) : Prop :=
  let q := eventQueue (simulation sys) in
  let cs := currentShift sys in
  count is_StartShift q + count is_EndShift q + results_printed sys = 1 ∧
  (0 <= cs <= last_shift sys)%Z ∧
  (count is_StartShift q = 1 → (cs < last_shift sys)%Z) ∧
  (count is_EndShift q = 1 → (1 <= cs)%Z) ∧
  (results_printed sys = 1 → cs = last_shift sys) ∧
  Forall (λ e, is_shift_event (action e) = 1 →
               (time e == inject_Z (cs * shiftDuration sys))%Q) q ∧
  Forall (line_on_time (shiftDuration sys) (last_shift sys)) (cout sys).

(** * Properties *)

(** ** The heap operations *)

Module HeapFacts.
Import Heap.

#[local] Arguments Nat.div : simpl never.
#[local] Arguments Nat.modulo : simpl never.

Lemma parent_cases (i : nat) :
  0 < i → i = 2 * ((i - 1) / 2) + 1 ∨ i = 2 * ((i - 1) / 2) + 2.
Proof.
  intros Hi. pose proof (Nat.div_mod_eq (i - 1) 2) as Hd.
  pose proof (Nat.mod_upper_bound (i - 1) 2) as Hm. lia.
Qed.

Lemma parent_lt (i : nat) : 0 < i → (i - 1) / 2 < i.
Proof. intros Hi. destruct (parent_cases i Hi); lia. Qed.

Lemma parent_le (i : nat) : (i - 1) / 2 ≤ i.
Proof.
  destruct i as [|i]; [reflexivity|]. pose proof (parent_lt (S i)). lia.
Qed.

Lemma parent_left (p : nat) : (2 * p + 1 - 1) / 2 = p.
Proof.
  replace (2 * p + 1 - 1) with (p * 2) by lia. apply Nat.div_mul. lia.
Qed.

Lemma parent_right (p : nat) : (2 * p + 2 - 1) / 2 = p.
Proof.
  replace (2 * p + 2 - 1) with (1 + p * 2) by lia.
  rewrite Nat.div_add by lia. reflexivity.
Qed.

Lemma parent_inv (i p : nat) :
  0 < i → (i - 1) / 2 = p → i = 2 * p + 1 ∨ i = 2 * p + 2.
Proof. intros Hi <-. apply parent_cases, Hi. Qed.

Lemma half_bounds (n : nat) : 2 * (n / 2) ≤ n < 2 * (n / 2) + 2.
Proof.
  pose proof (Nat.div_mod_eq n 2). pose proof (Nat.mod_upper_bound n 2). lia.
Qed.

Section Permutations.
Context {A : Type}.
Implicit Types (a c : list A) (x v : A).

Lemma delete_insert_same a h x : delete h (<[h := x]> a) = delete h a.
Proof.
  revert h. induction a as [|y a IH]; intros [|h]; simpl; try reflexivity.
  f_equal. apply IH.
Qed.

Lemma insert_perm_delete a h v :
  h < length a → <[h := v]> a ≡ₚ v :: delete h a.
Proof.
  intros Hh. rewrite <- (delete_insert_same a h v).
  apply delete_Permutation. apply list_lookup_insert_eq, Hh.
Qed.

(** Filling the hole [h] with the element at [p] and putting [v] at [p]
  moves the hole: the contents are those of [a] with [v] in the hole. *)
Lemma insert_swap_perm a p h x v :
  a !! p = Some x → p ≠ h → h < length a →
  <[p := v]> (<[h := x]> a) ≡ₚ <[h := v]> a.
Proof.
  revert p h. induction a as [|y a IH]; intros p h Hp Hne Hh.
  - simpl in Hh. lia.
  - destruct p as [|p], h as [|h]; simpl in *; try congruence.
    + injection Hp as ->.
      rewrite !insert_perm_delete by lia. apply perm_swap.
    + rewrite insert_perm_delete by (eapply lookup_lt_Some; eassumption).
      rewrite (delete_Permutation a p x Hp) at 2. apply perm_swap.
    + apply perm_skip, IH; [assumption | congruence | lia].
Qed.

Variable comp : A → A → bool.

Lemma __push_heap_0 a h top v :
  __push_heap comp 0 a h top v = <[h := v]> a.
Proof. simpl. destruct (a !! ((h - 1) / 2)); reflexivity. Qed.

Lemma __push_heap_S fuel a h top v :
  __push_heap comp (S fuel) a h top v =
  match a !! ((h - 1) / 2) with
  | Some p =>
      if bool_decide (top < h) && comp p v
      then __push_heap comp fuel (<[h := p]> a) ((h - 1) / 2) top v
      else <[h := v]> a
  | None => <[h := v]> a
  end.
Proof. reflexivity. Qed.

Lemma __push_heap_length fuel a h top v :
  length (__push_heap comp fuel a h top v) = length a.
Proof.
  revert a h. induction fuel as [|fuel IH]; intros a h; simpl.
  - destruct (a !! ((h - 1) / 2)); apply length_insert.
  - destruct (a !! ((h - 1) / 2)) as [p|]; [|apply length_insert].
    destruct (_ && _); [|apply length_insert].
    rewrite IH. apply length_insert.
Qed.

Lemma __push_heap_perm fuel a h top v :
  h < length a → __push_heap comp fuel a h top v ≡ₚ <[h := v]> a.
Proof.
  revert a h. induction fuel as [|fuel IH]; intros a h Hh; simpl.
  - destruct (a !! ((h - 1) / 2)); reflexivity.
  - destruct (a !! ((h - 1) / 2)) as [p|] eqn:Hp; [|reflexivity].
    destruct (bool_decide (top < h) && comp p v) eqn:Hc; [|reflexivity].
    apply andb_true_iff in Hc as [Hlt _]. apply bool_decide_eq_true in Hlt.
    pose proof (parent_lt h ltac:(lia)) as Hpar.
    rewrite IH by (rewrite length_insert; lia).
    apply insert_swap_perm; [exact Hp | lia | exact Hh].
Qed.

Lemma pq_push_perm x c : pq_push comp x c ≡ₚ x :: c.
Proof.
  unfold pq_push, push_heap. rewrite last_snoc, length_app. simpl.
  rewrite __push_heap_perm by (rewrite length_app; simpl; lia).
  replace (length c + 1 - 1) with (length c + 0) by lia.
  rewrite insert_app_r. simpl. symmetry. apply Permutation_cons_append.
Qed.

Lemma pq_push_length x c : length (pq_push comp x c) = S (length c).
Proof. rewrite (Permutation_length (pq_push_perm x c)). reflexivity. Qed.

Lemma adjust_down_S fuel a h len :
  adjust_down comp (S fuel) a h len =
  if bool_decide (h < (len - 1) / 2) then
    match a !! (2 * (h + 1)), a !! (2 * (h + 1) - 1) with
    | Some r, Some l =>
        adjust_down comp fuel (<[h := if comp r l then l else r]> a)
          (if comp r l then 2 * (h + 1) - 1 else 2 * (h + 1)) len
    | _, _ => (a, h)
    end
  else (a, h).
Proof. reflexivity. Qed.

Lemma adjust_down_spec fuel a h len a' h' :
  adjust_down comp fuel a h len = (a', h') →
  len ≤ length a → h < len →
  length a' = length a ∧ h' < len ∧ h ≤ h' ∧
  ∀ v, <[h' := v]> a' ≡ₚ <[h := v]> a.
Proof.
  revert a h. induction fuel as [|fuel IH]; intros a h Hrun Hlen Hh.
  - injection Hrun as <- <-. auto.
  - rewrite adjust_down_S in Hrun. case_bool_decide as Hlt; [|injection Hrun as <- <-; auto].
    destruct (a !! (2 * (h + 1))) as [r|] eqn:Hr; [|injection Hrun as <- <-; auto].
    destruct (a !! (2 * (h + 1) - 1)) as [l|] eqn:Hl; [|injection Hrun as <- <-; auto].
    pose proof (half_bounds (len - 1)) as Hb.
    apply IH in Hrun; [|rewrite length_insert; lia|destruct (comp r l); lia].
    destruct Hrun as (Hlen' & Hh' & Hle & Hperm).
    rewrite length_insert in Hlen'.
    split; [exact Hlen'|]. split; [exact Hh'|].
    split; [destruct (comp r l); lia|].
    intros v. rewrite Hperm.
    destruct (comp r l).
    + apply insert_swap_perm; [exact Hl | lia | lia].
    + apply insert_swap_perm; [exact Hr | lia | lia].
Qed.

Lemma __adjust_heap_perm a len v :
  len = length a → 0 < len → __adjust_heap comp a 0 len v ≡ₚ <[0 := v]> a.
Proof.
  intros Hlen Hpos. unfold __adjust_heap.
  destruct (adjust_down comp len a 0 len) as [a1 h1] eqn:Hd.
  apply adjust_down_spec in Hd as (Hl1 & Hh1 & _ & Hperm); [|lia..].
  destruct (_ && _) eqn:Hc.
  - destruct (a1 !! (2 * (h1 + 1) - 1)) as [l|] eqn:Hl.
    + apply lookup_lt_Some in Hl as Hll.
      rewrite __push_heap_perm by (rewrite length_insert; lia).
      rewrite <- Hperm.
      apply andb_true_iff in Hc as [_ Hc]. apply bool_decide_eq_true in Hc.
      apply insert_swap_perm; [exact Hl | lia | lia].
    + rewrite __push_heap_perm by lia. apply Hperm.
  - rewrite __push_heap_perm by lia. apply Hperm.
Qed.

Lemma pq_pop_perm t c : pq_pop comp (t :: c) ≡ₚ c.
Proof.
  unfold pq_pop, pop_heap_pop_back.
  destruct (last (t :: c)) as [value|] eqn:Hlast.
  2:{ apply last_None in Hlast. discriminate. }
  case_bool_decide as Hlen.
  - simpl in Hlen. destruct c as [|y c _] using rev_ind; [simpl in Hlen; lia|].
    rewrite app_comm_cons, last_snoc in Hlast. injection Hlast as ->.
    simpl. rewrite length_app. simpl.
    replace (length c + 1 - 0) with (S (length c)) by lia.
    rewrite __adjust_heap_perm.
    + simpl. rewrite take_app_length. apply Permutation_cons_append.
    + simpl. rewrite length_take, length_app. simpl. lia.
    + lia.
  - simpl in Hlen. destruct c; [reflexivity | simpl in Hlen; lia].
Qed.
End Permutations.

Section Order.
Context {A : Type} (comp : A → A → bool).
Implicit Types (a c : list A) (x v : A).

(** [comp] is the strict part of a total preorder, as [operator>] on
  timestamps is. *)
Hypothesis comp_asym : ∀ x y, comp x y = true → comp y x = false.
Hypothesis comp_trans :
∀ x y z, comp x y = false → comp y z = false → comp x z = false.

Lemma comp_irrefl x : comp x x = false.
Proof. pose proof (comp_asym x x) as H. destruct (comp x x); auto. Qed.

Lemma is_heap_nil : is_heap comp [].
Proof. intros i x y _ Hx. discriminate. Qed.

Lemma is_heap_take n c : is_heap comp c → is_heap comp (take n c).
Proof.
  intros Hc i x y Hi Hx Hy.
  apply lookup_take_Some in Hx as [Hx _]. apply lookup_take_Some in Hy as [Hy _].
  eapply Hc; eassumption.
Qed.

(** The top of a heap compares above no element. *)
Lemma is_heap_top_min c t :
  is_heap comp c → c !! 0 = Some t →
  ∀ i x, c !! i = Some x → comp t x = false.
Proof.
  intros Hc Ht i. induction (lt_wf i) as [i _ IH]. intros x Hx.
  destruct (decide (i = 0)) as [->|Hi].
  - rewrite Ht in Hx. injection Hx as ->. apply comp_irrefl.
  - pose proof (parent_lt i ltac:(lia)) as Hp.
    destruct (c !! ((i - 1) / 2)) as [y|] eqn:Hy.
    + eapply comp_trans; [eapply IH; eassumption|].
      eapply Hc; [|eassumption..]. lia.
    + apply lookup_ge_None in Hy. apply lookup_lt_Some in Hx. lia.
Qed.

Lemma __push_heap_is_heap fuel a h v :
  h ≤ fuel → h < length a → hole_up comp a h v →
  is_heap comp (__push_heap comp fuel a h 0 v).
Proof.
  revert a h. induction fuel as [|fuel IH]; intros a h Hfuel Hh [J1 J2].
  - assert (h = 0) as -> by lia. rewrite __push_heap_0.
    intros i x y Hi. apply J1; lia.
  - rewrite __push_heap_S. destruct (a !! ((h - 1) / 2)) as [p|] eqn:Hp.
    2:{ apply lookup_ge_None in Hp. pose proof (parent_le h). lia. }
    destruct (bool_decide (0 < h) && comp p v) eqn:Hc.
    + apply andb_true_iff in Hc as [Hpos Hgt]. apply bool_decide_eq_true in Hpos.
      pose proof (parent_lt h Hpos) as Hpar.
      set (q := (h - 1) / 2) in *.
      assert (Hbq : <[h := v]> a !! q = Some p)
        by (rewrite list_lookup_insert_ne by lia; exact Hp).
      assert (Hbh : <[h := v]> a !! h = Some v)
        by (apply list_lookup_insert_eq; exact Hh).
      apply IH; [lia | rewrite length_insert; lia |].
      split.
      * intros i x y Hi Hne Hx Hy.
        destruct (decide (i = h)) as [->|Hih].
        -- fold q in Hy. rewrite list_lookup_insert_eq in Hy
             by (rewrite length_insert; lia).
           rewrite list_lookup_insert_ne, list_lookup_insert_eq in Hx by lia.
           injection Hx as <-. injection Hy as <-. apply comp_asym, Hgt.
        -- rewrite list_lookup_insert_ne, list_lookup_insert_ne in Hx by lia.
           destruct (decide ((i - 1) / 2 = h)) as [Hpi|Hpi].
           ++ rewrite Hpi, list_lookup_insert_ne, list_lookup_insert_eq in Hy by lia.
              injection Hy as <-.
              eapply (J2 i x p); [lia | lia | exact Hpi | | exact Hbq].
              rewrite list_lookup_insert_ne by lia. exact Hx.
           ++ destruct (decide ((i - 1) / 2 = q)) as [Hpq|Hpq].
              ** rewrite Hpq, list_lookup_insert_eq in Hy
                   by (rewrite length_insert; lia).
                 injection Hy as <-.
                 eapply comp_trans; [apply comp_asym, Hgt|].
                 eapply (J1 i x p); [lia | lia | | rewrite Hpq; exact Hbq].
                 rewrite list_lookup_insert_ne by lia. exact Hx.
              ** rewrite list_lookup_insert_ne, list_lookup_insert_ne in Hy by lia.
                 eapply (J1 i x y); [lia | lia | |].
                 --- rewrite list_lookup_insert_ne by lia. exact Hx.
                 --- rewrite list_lookup_insert_ne by lia. exact Hy.
      * intros i x y Hq Hi Hpi Hx Hy.
        assert (Hqh : q ≠ h) by lia.
        pose proof (parent_lt q Hq) as Hqq.
        rewrite list_lookup_insert_ne, list_lookup_insert_ne in Hy by lia.
        assert (Hqp : comp y p = false).
        { eapply (J1 q p y); [lia | lia | exact Hbq |].
          rewrite list_lookup_insert_ne by lia. exact Hy. }
        destruct (decide (i = h)) as [->|Hih].
        -- rewrite list_lookup_insert_ne, list_lookup_insert_eq in Hx by lia.
           injection Hx as <-. exact Hqp.
        -- pose proof (parent_lt i Hi).
           rewrite list_lookup_insert_ne, list_lookup_insert_ne in Hx by lia.
           eapply comp_trans; [exact Hqp|].
           eapply (J1 i x p); [lia | lia | | rewrite Hpi; exact Hbq].
           rewrite list_lookup_insert_ne by lia. exact Hx.
    + intros i x y Hi Hx Hy.
      destruct (decide (i = h)) as [->|Hih]; [|eapply J1; eassumption].
      rewrite list_lookup_insert_eq in Hx by lia. injection Hx as <-.
      rewrite list_lookup_insert_ne in Hy by (pose proof (parent_lt h Hi); lia).
      rewrite Hp in Hy. injection Hy as <-.
      apply andb_false_iff in Hc as [Hc|Hc]; [|exact Hc].
      apply bool_decide_eq_false in Hc. lia.
Qed.

(** A hole at a leaf of a heap can take any value. *)
Lemma hole_up_leaf a h v :
  is_heap comp a → length a ≤ 2 * h + 1 → hole_up comp a h v.
Proof.
  intros Ha Hleaf. split.
  - intros i x y Hi Hne Hx Hy. rewrite list_lookup_insert_ne in Hx by lia.
    destruct (decide ((i - 1) / 2 = h)) as [Hp|Hp].
    + apply lookup_lt_Some in Hx. apply parent_inv in Hp; lia.
    + rewrite list_lookup_insert_ne in Hy by lia. eapply Ha; eassumption.
  - intros i x y _ Hi Hp Hx _. apply lookup_lt_Some in Hx.
    rewrite length_insert in Hx. apply parent_inv in Hp; lia.
Qed.

Lemma pq_push_is_heap x c : is_heap comp c → is_heap comp (pq_push comp x c).
Proof.
  intros Hc. unfold pq_push, push_heap. rewrite last_snoc, length_app. simpl.
  replace (length c + 1 - 1) with (length c) by lia.
  apply __push_heap_is_heap; [lia | rewrite length_app; simpl; lia |].
  assert (Hfill : <[length c := x]> (c ++ [x]) = c ++ [x]).
  { replace (length c) with (length c + 0) at 1 by lia.
    rewrite insert_app_r. reflexivity. }
  split; rewrite Hfill.
  - intros i y z Hi Hne Hy Hz.
    assert (Hil : i < length c).
    { apply lookup_lt_Some in Hy. rewrite length_app in Hy. simpl in Hy. lia. }
    pose proof (parent_lt i Hi).
    rewrite lookup_app_l in Hy, Hz by lia. eapply Hc; eassumption.
  - intros i y z _ Hi Hp Hy _. apply lookup_lt_Some in Hy.
    rewrite length_app in Hy. simpl in Hy. apply parent_inv in Hp; lia.
Qed.

(** Moving a child that its sibling does not compare below into the hole
  keeps the heap order (the hole keeps a copy of the child). *)
Lemma promote_child_is_heap a h k m :
  is_heap comp a → (k - 1) / 2 = h → 0 < k → a !! k = Some m →
  (∀ j y, 0 < j → (j - 1) / 2 = h → a !! j = Some y → comp m y = false) →
  is_heap comp (<[h := m]> a).
Proof.
  intros Ha Hk Hkpos Hm Hmin i x y Hi Hx Hy.
  assert (Hhl : h < length a).
  { apply lookup_lt_Some in Hm. pose proof (parent_le k). lia. }
  destruct (decide (i = h)) as [->|Hih].
  - rewrite list_lookup_insert_eq in Hx by exact Hhl. injection Hx as <-.
    pose proof (parent_lt h Hi).
    rewrite list_lookup_insert_ne in Hy by lia.
    destruct (a !! h) as [z|] eqn:Hz; [|apply lookup_ge_None in Hz; lia].
    eapply comp_trans; [eapply (Ha h z y); eassumption|].
    eapply (Ha k m z); [exact Hkpos | exact Hm | rewrite Hk; exact Hz].
  - rewrite list_lookup_insert_ne in Hx by lia.
    destruct (decide ((i - 1) / 2 = h)) as [Hp|Hp].
    + rewrite Hp, list_lookup_insert_eq in Hy by exact Hhl. injection Hy as <-.
      eapply Hmin; eassumption.
    + rewrite list_lookup_insert_ne in Hy by lia. eapply Ha; eassumption.
Qed.

Lemma adjust_down_is_heap fuel a h len a' h' :
  adjust_down comp fuel a h len = (a', h') →
  len = length a → h < len → len ≤ fuel + h →
  is_heap comp a → is_heap comp a' ∧ (len - 1) / 2 ≤ h'.
Proof.
  revert a h. induction fuel as [|fuel IH]; intros a h Hrun Hlen Hh Hfuel Ha.
  - lia.
  - rewrite adjust_down_S in Hrun. pose proof (half_bounds (len - 1)) as Hb.
    case_bool_decide as Hlt; [|injection Hrun as <- <-; split; [exact Ha | lia]].
    destruct (a !! (2 * (h + 1))) as [r|] eqn:Hr.
    2:{ apply lookup_ge_None in Hr. lia. }
    destruct (a !! (2 * (h + 1) - 1)) as [l|] eqn:Hl.
    2:{ apply lookup_ge_None in Hl. lia. }
    apply IH in Hrun; [exact Hrun | rewrite length_insert; exact Hlen
                       | destruct (comp r l); lia | destruct (comp r l); lia |].
    assert (Hchild : ∀ j y, 0 < j → (j - 1) / 2 = h → a !! j = Some y →
              y = l ∧ j = 2 * (h + 1) - 1 ∨ y = r ∧ j = 2 * (h + 1)).
    { intros j y Hj Hp Hy. apply parent_inv in Hp; [|exact Hj].
      destruct Hp as [->| ->].
      - left. replace (2 * (h + 1) - 1) with (2 * h + 1) in Hl by lia.
        split; [congruence | lia].
      - right. replace (2 * (h + 1)) with (2 * h + 2) in Hr by lia.
        split; [congruence | lia]. }
    destruct (comp r l) eqn:Hc.
    + apply (promote_child_is_heap a h (2 * (h + 1) - 1) l); [exact Ha | | lia | exact Hl |].
      * replace (2 * (h + 1) - 1) with (2 * h + 1) by lia. apply parent_left.
      * intros j y Hj Hp Hy.
        destruct (Hchild j y Hj Hp Hy) as [[-> _]|[-> _]];
          [apply comp_irrefl | apply comp_asym, Hc].
    + apply (promote_child_is_heap a h (2 * (h + 1)) r); [exact Ha | | lia | exact Hr |].
      * replace (2 * (h + 1)) with (2 * h + 2) by lia. apply parent_right.
      * intros j y Hj Hp Hy.
        destruct (Hchild j y Hj Hp Hy) as [[-> _]|[-> _]];
          [exact Hc | apply comp_irrefl].
Qed.

Lemma __adjust_heap_is_heap a len v :
  len = length a → 0 < len → is_heap comp a →
  is_heap comp (__adjust_heap comp a 0 len v).
Proof.
  intros Hlen Hpos Ha. unfold __adjust_heap.
  destruct (adjust_down comp len a 0 len) as [a1 h1] eqn:Hd.
  pose proof Hd as Hd'.
  apply adjust_down_spec in Hd as (Hl1 & Hh1 & _ & _); [|lia..].
  apply adjust_down_is_heap in Hd' as [Ha1 Hlow]; [|lia..|exact Ha].
  pose proof (half_bounds (len - 1)) as Hb1.
  pose proof (half_bounds (len - 2)) as Hb2.
  destruct (Nat.even len && bool_decide (2 ≤ len)
            && bool_decide (h1 = (len - 2) / 2)) eqn:Hc.
  - apply andb_true_iff in Hc as [Hc Hh]. apply andb_true_iff in Hc as [Hev H2].
    apply bool_decide_eq_true in Hh. apply bool_decide_eq_true in H2.
    apply Nat.even_spec in Hev as [k Hk].
    assert (Hh1k : 2 * (h1 + 1) - 1 = len - 1) by lia.
    destruct (a1 !! (2 * (h1 + 1) - 1)) as [l|] eqn:Hl.
    2:{ apply lookup_ge_None in Hl. lia. }
    apply __push_heap_is_heap; [lia | rewrite length_insert; lia |].
    apply hole_up_leaf; [|rewrite length_insert; lia].
    apply (promote_child_is_heap a1 h1 (2 * (h1 + 1) - 1) l); [exact Ha1 | | lia | exact Hl |].
    + replace (2 * (h1 + 1) - 1) with (2 * h1 + 1) by lia. apply parent_left.
    + intros j y Hj Hp Hy. apply lookup_lt_Some in Hy as Hjl.
      apply parent_inv in Hp; [|exact Hj]. destruct Hp as [->| ->]; [|lia].
      replace (2 * (h1 + 1) - 1) with (2 * h1 + 1) in Hl by lia.
      rewrite Hl in Hy. injection Hy as <-. apply comp_irrefl.
  - apply __push_heap_is_heap; [lia | lia |].
    apply hole_up_leaf; [exact Ha1|].
    destruct (Nat.even len) eqn:Hev; simpl in Hc.
    + apply Nat.even_spec in Hev as [k Hk].
      apply andb_false_iff in Hc as [Hc|Hc];
        [apply bool_decide_eq_false in Hc | apply bool_decide_eq_false in Hc]; lia.
    + assert (Hodd : Nat.odd len = true) by (rewrite <- Nat.negb_even, Hev; reflexivity).
      apply Nat.odd_spec in Hodd as [k Hk]. lia.
Qed.

Lemma pq_pop_is_heap c : is_heap comp c → is_heap comp (pq_pop comp c).
Proof.
  intros Hc. unfold pq_pop, pop_heap_pop_back.
  destruct (last c) as [value|]; [|apply is_heap_nil].
  case_bool_decide as Hlen; [|apply is_heap_nil].
  apply __adjust_heap_is_heap; [rewrite length_take; lia | lia |].
  apply is_heap_take, Hc.
Qed.
End Order.
End HeapFacts.

(** ** The scheduler *)

Section SchedulerFacts.
Context {Act : Type}.
Implicit Types (e : Event Act) (q : list (Event Act)) (sim : Simulation Act).

Lemma Qltb_lt x y : Qltb x y = true ↔ (x < y)%Q.
Proof.
  unfold Qltb. rewrite negb_true_iff, <- not_true_iff_false, Qle_bool_iff.
  split; [apply Qnot_le_lt | apply Qlt_not_le].
Qed.

Lemma Qltb_ge x y : Qltb x y = false ↔ (y <= x)%Q.
Proof. unfold Qltb. rewrite negb_false_iff. apply Qle_bool_iff. Qed.

Lemma Event_gt_false e1 e2 : Event_gt e1 e2 = false ↔ time_le e1 e2.
Proof. unfold Event_gt, Qgtb. apply Qltb_ge. Qed.

Lemma Event_gt_asym e1 e2 : Event_gt e1 e2 = true → Event_gt e2 e1 = false.
Proof.
  unfold Event_gt, Qgtb. rewrite Qltb_lt, Qltb_ge. apply Qlt_le_weak.
Qed.

Lemma Event_gt_trans e1 e2 e3 :
  Event_gt e1 e2 = false → Event_gt e2 e3 = false → Event_gt e1 e3 = false.
Proof. rewrite !Event_gt_false. apply Qle_trans. Qed.

Lemma heap_ok_nil : heap_ok (@nil (Event Act)).
Proof. apply HeapFacts.is_heap_nil. Qed.

Lemma heap_ok_push e q : heap_ok q → heap_ok (Heap.pq_push Event_gt e q).
Proof.
  apply HeapFacts.pq_push_is_heap; [apply Event_gt_asym | apply Event_gt_trans].
Qed.

Lemma heap_ok_pop q : heap_ok q → heap_ok (Heap.pq_pop Event_gt q).
Proof.
  apply HeapFacts.pq_pop_is_heap; [apply Event_gt_asym | apply Event_gt_trans].
Qed.

(** The event [run] takes next carries a least timestamp. *)
Lemma heap_ok_top e q : heap_ok (e :: q) → Forall (time_le e) q.
Proof.
  intros Hq. apply Forall_lookup. intros i x Hx. apply Event_gt_false.
  eapply (HeapFacts.is_heap_top_min Event_gt Event_gt_asym Event_gt_trans
            (e :: q) e Hq eq_refl (S i)). exact Hx.
Qed.

Lemma scheduleEvent_queue t a sim :
  eventQueue (scheduleEvent t a sim) ≡ₚ mkEvent t a :: eventQueue sim.
Proof. apply HeapFacts.pq_push_perm. Qed.
End SchedulerFacts.

Section LogWorldFacts.
Implicit Types (q : list (Event nat)) (log : list nat).

Lemma schedule_all_spec evs sim :
  heap_ok (eventQueue sim) →
  heap_ok (eventQueue (schedule_all evs sim)) ∧
  eventQueue (schedule_all evs sim)
    ≡ₚ ((λ ev, mkEvent ev.1 ev.2) <$> evs) ++ eventQueue sim.
Proof.
  revert sim. induction evs as [|ev evs IH]; intros sim Hq; [done|].
  simpl. destruct (IH (scheduleEvent ev.1 ev.2 sim)) as [Hh Hp].
  { apply heap_ok_push, Hq. }
  split; [exact Hh|]. unfold schedule_all in Hp. rewrite Hp.
  rewrite scheduleEvent_queue. symmetry. apply Permutation_middle.
Qed.

(** Running the log world empties a heap in timestamp order. *)
Lemma run_log_sorted n t q log :
  heap_ok q → length q ≤ n →
  ∃ l, l ≡ₚ q ∧ StronglySorted time_le l ∧
       (run fst log_with_sim log_perform n (mkSimulation t q, log)).2
       = log ++ (action <$> l).
Proof.
  revert t q log. induction n as [|n IH]; intros t q log Hq Hn.
  - destruct q; [|simpl in Hn; lia]. exists []. simpl.
    rewrite app_nil_r. repeat split; constructor.
  - destruct q as [|e q0].
    + exists []. simpl. rewrite app_nil_r. repeat split; constructor.
    + pose proof (HeapFacts.pq_pop_perm Event_gt e q0) as Hperm.
      destruct (IH (time e) (Heap.pq_pop Event_gt (e :: q0)) (log ++ [action e]))
        as (l & Hl & Hs & Hrun).
      { apply heap_ok_pop, Hq. }
      { rewrite (Permutation_length Hperm). simpl in Hn. lia. }
      exists (e :: l). split; [|split].
      * rewrite Hl, Hperm. reflexivity.
      * constructor; [exact Hs|]. rewrite Hl, Hperm. apply heap_ok_top, Hq.
      * change ((run fst log_with_sim log_perform n
                   (mkSimulation (time e) (Heap.pq_pop Event_gt (e :: q0)),
                    log ++ [action e])).2 = log ++ (action <$> e :: l)).
        rewrite Hrun, fmap_cons, <- app_assoc. reflexivity.
Qed.
End LogWorldFacts.

(** C1 (as the code has it): events scheduled before the run are each
    executed once, in nondecreasing timestamp order; the order among equal
    timestamps is the one the binary heap yields. *)
Theorem C1_executed_in_timestamp_order (evs : list (Q * nat)) :
  ∃ l : list (Event nat),
    l ≡ₚ (λ ev, mkEvent ev.1 ev.2) <$> evs ∧
    StronglySorted time_le l ∧
    executed_order evs = action <$> l.
Proof.
  unfold executed_order.
  destruct (schedule_all_spec evs Simulation_new heap_ok_nil) as [Hh Hp].
  rewrite app_nil_r in Hp.
  destruct (schedule_all evs Simulation_new) as [t q] eqn:Hs. simpl in Hh, Hp.
  destruct (run_log_sorted (length evs) t q [] Hh) as (l & Hl & Hsorted & Hrun).
  { rewrite (Permutation_length Hp), length_fmap. reflexivity. }
  exists l. split; [rewrite Hl; exact Hp|]. split; [exact Hsorted|].
  rewrite Hrun. reflexivity.
Qed.

(** C1 fails as stated: four events scheduled for the same time in the
    order 1, 2, 3, 4 are executed in the order 1, 3, 2, 4. *)
Lemma C1_fifo_ties_counterexample :
  executed_order four_ties = [1; 3; 2; 4] ∧
  ¬ fifo_ties four_ties.
Proof.
  assert (Hrun : executed_order four_ties = [1; 3; 2; 4])
    by (vm_compute; reflexivity).
  split; [exact Hrun|]. intros Hfifo.
  destruct (Hfifo 1 2 0%Q 0%Q 2 3) as (k & l & Hkl & Hk & Hl);
    [lia | reflexivity | reflexivity | reflexivity |].
  rewrite Hrun in Hk, Hl.
  clear Hfifo Hrun.
  destruct k as [|[|[|[|k]]]]; simpl in Hk; try discriminate Hk.
  destruct l as [|[|[|[|l]]]]; simpl in Hl; try discriminate Hl. lia.
Qed.

(** C9 (as the code has it): [scheduleEvent] checks nothing; whatever the
    timestamp, the event joins the pending events and current time stays as
    it is. *)
Theorem C9_scheduleEvent_accepts_any_time {Act} (t : Q) (a : Act)
    (sim : Simulation Act) :
  eventQueue (scheduleEvent t a sim) ≡ₚ mkEvent t a :: eventQueue sim ∧
  currentTime (scheduleEvent t a sim) = currentTime sim ∧
  (heap_ok (eventQueue sim) → heap_ok (eventQueue (scheduleEvent t a sim))).
Proof.
  split; [apply scheduleEvent_queue|]. split; [reflexivity|]. apply heap_ok_push.
Qed.

Lemma C9_scheduleEvent_accepts_any_time_witness :
  heap_ok (eventQueue (scheduleEvent 1 StartShiftAction (mkSimulation 5 []))).
Proof.
  apply (C9_scheduleEvent_accepts_any_time 1 StartShiftAction (mkSimulation 5 [])).
  apply heap_ok_nil.
Defined.

(** C9 fails as stated: an event for a time in the past is accepted.  In
    the run of [ManufacturingSystem(-5, 1)], [startShift], called at time 0,
    schedules [endShift] for time -5; the event is queued, and the loop then
    moves current time from 0 back to -5. *)
Lemma C9_past_events_rejected_counterexample :
  ¬ past_events_rejected ∧
  let sys1 := ManufacturingSystem_run 1 (ManufacturingSystem_new (-5) 1 never_breaks) in
  let sys2 := ManufacturingSystem_run 2 (ManufacturingSystem_new (-5) 1 never_breaks) in
  (now sys1 == 0)%Q ∧
  (action <$> eventQueue (simulation sys1) = [EndShiftAction]) ∧
  Forall (λ e, time e < now sys1)%Q (eventQueue (simulation sys1)) ∧
  (now sys2 == -5)%Q.
Proof.
  split.
  - intros Hguard.
    apply (Hguard 1%Q StartShiftAction (mkSimulation 5 [])); [reflexivity|].
    vm_compute. apply list_elem_of_here.
  - vm_compute. repeat split; try discriminate.
    repeat constructor.
Qed.

(** ** The machine *)

Section MachineFacts.
Implicit Types (m : Machine) (sim : Simulation Action) (out : list Output).

Lemma Qgtb_gt x y : Qgtb x y = true ↔ (y < x)%Q.
Proof. apply Qltb_lt. Qed.

Lemma startProcessing_rejected self p d m sim out :
  rejects p d m sim → startProcessing self p d m sim out = (m, sim, out).
Proof.
  intros [Hb|Hlate]; unfold startProcessing.
  - rewrite Hb. reflexivity.
  - apply Qgtb_gt in Hlate. rewrite Hlate, orb_true_r. reflexivity.
Qed.

Lemma startProcessing_broken self p d m sim out :
  ¬ rejects p d m sim →
  (generator m 0 < breakdownProbability m)%Q →
  startProcessing self p d m sim out =
  (accepting m,
   scheduleEvent (getCurrentTime sim + maintenanceTime m)
     (RetryAction self p d) sim,
   out ++ [MachineStarted (name m) p (getCurrentTime sim)]
       ++ [MachineBrokeDown (name m)]).
Proof.
  intros Hacc Hbrk. unfold rejects in Hacc. unfold startProcessing.
  destruct (isBusy m) eqn:Hb; [tauto|].
  destruct (Qgtb _ d) eqn:Hlate; [apply Qgtb_gt in Hlate; tauto|].
  simpl. apply Qltb_lt in Hbrk. rewrite Hbrk, <- app_assoc. reflexivity.
Qed.

Lemma startProcessing_accepted self p d m sim out :
  ¬ rejects p d m sim →
  ¬ (generator m 0 < breakdownProbability m)%Q →
  startProcessing self p d m sim out =
  (accepting m,
   scheduleEvent
     (getCurrentTime sim
      + (subscript (processTimes m) p + subscript (setupTimes m) p))
     (CompleteAction self p) sim,
   out ++ [MachineStarted (name m) p (getCurrentTime sim)]).
Proof.
  intros Hacc Hok. unfold rejects in Hacc. unfold startProcessing.
  destruct (isBusy m) eqn:Hb; [tauto|].
  destruct (Qgtb _ d) eqn:Hlate; [apply Qgtb_gt in Hlate; tauto|].
  simpl. destruct (Qltb _ _) eqn:Hbrk; [apply Qltb_lt in Hbrk; tauto|].
  reflexivity.
Qed.

Lemma rejects_dec p d m sim : rejects p d m sim ∨ ¬ rejects p d m sim.
Proof.
  unfold rejects. destruct (isBusy m); [auto|].
  destruct (Qlt_le_dec d (getCurrentTime sim + subscript (processTimes m) p))
    as [Hlt|Hle]; [auto|].
  right. intros [?|Hlt]; [discriminate|]. apply Qlt_not_le in Hlt. tauto.
Qed.

Lemma breaks_dec m :
  (generator m 0 < breakdownProbability m)%Q
  ∨ ¬ (generator m 0 < breakdownProbability m)%Q.
Proof.
  destruct (Qlt_le_dec (generator m 0) (breakdownProbability m)) as [?|Hle];
    [auto|]. right. apply Qle_not_lt, Hle.
Qed.
End MachineFacts.

(** C3: [startProcessing] does nothing exactly when the machine is busy or
    the unit cannot be processed before the deadline; otherwise, without a
    breakdown, the machine becomes busy and a completion event is scheduled
    for current time + processing time + setup time, and calling that event
    makes the machine idle and calls [onProcessComplete]. *)
Theorem C3_startProcessing_contract (self : MachineId) (p : string) (d : Q)
    (m : Machine) (sim : Simulation Action) (out : list Output) :
  let cur := getCurrentTime sim in
  let pt := subscript (processTimes m) p in
  let st := subscript (setupTimes m) p in
  (startProcessing self p d m sim out = (m, sim, out)
   ↔ isBusy m = true ∨ (d < cur + pt)%Q) ∧
  (isBusy m = false → (cur + pt <= d)%Q →
   ¬ (generator m 0 < breakdownProbability m)%Q →
   ∃ m' tc,
     startProcessing self p d m sim out
     = (m', scheduleEvent tc (CompleteAction self p) sim,
        out ++ [MachineStarted (name m) p cur]) ∧
     isBusy m' = true ∧ (tc == cur + pt + st)%Q ∧
     eventQueue (scheduleEvent tc (CompleteAction self p) sim)
       ≡ₚ mkEvent tc (CompleteAction self p) :: eventQueue sim) ∧
  (∀ sys : ManufacturingSystem,
     let idle := set_machine self (set_isBusy false (machine self sys)) sys in
     isAvailable (machine self idle) = true ∧
     perform (CompleteAction self p) sys
     = onProcessComplete self p
         (print (MachineFinished (name (machine self sys)) p (now sys)) idle)).
Proof.
  intros cur pt st. split; [|split].
  - split; [|apply startProcessing_rejected].
    intros Heq. destruct (rejects_dec p d m sim) as [Hr|Hacc]; [exact Hr|].
    assert (Hb : isBusy m = false).
    { destruct (isBusy m) eqn:Hb; [|reflexivity]. exfalso. apply Hacc. left. exact Hb. }
    exfalso. destruct (breaks_dec m) as [Hbrk|Hok].
    + rewrite startProcessing_broken in Heq by assumption.
      injection Heq as Hm _ _. apply (f_equal isBusy) in Hm. simpl in Hm. congruence.
    + rewrite startProcessing_accepted in Heq by assumption.
      injection Heq as Hm _ _. apply (f_equal isBusy) in Hm. simpl in Hm. congruence.
  - intros Hb Hfit Hok.
    assert (Hacc : ¬ rejects p d m sim).
    { intros [Hb'|Hlate]; [congruence|]. apply Qlt_not_le in Hlate. tauto. }
    exists (accepting m), (cur + (pt + st))%Q.
    split; [apply startProcessing_accepted; assumption|].
    split; [reflexivity|]. split; [apply Qplus_assoc|apply scheduleEvent_queue].
  - intros sys idle. split; [|destruct self; reflexivity].
    unfold idle. destruct self; reflexivity.
Qed.

Lemma C3_startProcessing_contract_witness :
  let m := rawMaterialHandler (ManufacturingSystem_new 8 1 never_breaks) in
  let sim := @Simulation_new Action in
  isBusy m = false ∧
  (getCurrentTime sim + subscript (processTimes m) "ProductA" <= 8)%Q ∧
  ∃ m' tc,
    startProcessing RawMaterialHandler "ProductA" 8 m sim []
    = (m', scheduleEvent tc (CompleteAction RawMaterialHandler "ProductA") sim,
       [] ++ [MachineStarted (name m) "ProductA" (getCurrentTime sim)]) ∧
    isBusy m' = true ∧
    (tc == getCurrentTime sim + subscript (processTimes m) "ProductA"
           + subscript (setupTimes m) "ProductA")%Q ∧
    eventQueue (scheduleEvent tc (CompleteAction RawMaterialHandler "ProductA") sim)
      ≡ₚ mkEvent tc (CompleteAction RawMaterialHandler "ProductA")
         :: eventQueue sim.
Proof.
  intros m sim. split; [reflexivity|]. split; [vm_compute; discriminate|].
  apply (proj1 (proj2 (C3_startProcessing_contract RawMaterialHandler "ProductA"
                         8 m sim []))).
  - reflexivity.
  - vm_compute. discriminate.
  - vm_compute. discriminate.
Defined.



(** The same in a run: in [ManufacturingSystem(2, 1)] the first machine
    accepts the first unit at time 0 (0 + 2 is not above the shift end 2)
    and finishes it at time 3, after the shift has ended at time 2. *)
Example completion_after_shift_end :
  cout (ManufacturingSystem_run 3 (ManufacturingSystem_new 2 1 never_breaks))
  = [ShiftStarted 1 0;
     MachineStarted "Raw Material Handler" "ProductA" 0;
     ShiftEnded 1 (0 + inject_Z 2);
     SimulationResults 0 (0 + inject_Z 2);
     MachineFinished "Raw Material Handler" "ProductA" (0 + (2.0 + 1.0))].
Proof. vm_compute. reflexivity. Qed.

Lemma retry_while_busy (self : MachineId) (p : string) (d : Q)
    (sys : ManufacturingSystem) :
  isBusy (machine self sys) = true → perform (RetryAction self p d) sys = sys.
Proof.
  intros Hb. simpl. unfold call_startProcessing.
  rewrite startProcessing_rejected by (left; exact Hb).
  destruct sys, self; reflexivity.
Qed.

(** ** The production line *)

Section LineFacts.
Implicit Types (sys : ManufacturingSystem) (id : MachineId).

Lemma machine_finishProcessing self id p sys :
  machine id (finishProcessing self p sys)
  = if decide (self = id) then set_isBusy false (machine self sys)
    else machine id sys.
Proof. destruct self, id; reflexivity. Qed.

Lemma machine_after_call id id' m sim out sys :
  machine id' (set_cout out (set_simulation sim (set_machine id m sys)))
  = if decide (id = id') then m else machine id' sys.
Proof. destruct id, id'; reflexivity. Qed.

(** What a call of [startProcessing] on a member machine does to the
    system: nothing, or the machine accepts and one event is scheduled. *)
Lemma call_startProcessing_cases id p d sys :
  let m := machine id sys in
  (rejects p d m (simulation sys) ∧ call_startProcessing id p d sys = sys) ∨
  (¬ rejects p d m (simulation sys) ∧
   ∃ t a out,
     (t = (now sys + maintenanceTime m)%Q ∧ a = RetryAction id p d ∧
      (generator m 0 < breakdownProbability m)%Q ∧
      out = [MachineStarted (name m) p (now sys); MachineBrokeDown (name m)]
      ∨ t = (now sys + (subscript (processTimes m) p
                        + subscript (setupTimes m) p))%Q
        ∧ a = CompleteAction id p ∧
        ¬ (generator m 0 < breakdownProbability m)%Q ∧
        out = [MachineStarted (name m) p (now sys)]) ∧
     call_startProcessing id p d sys
     = set_cout (cout sys ++ out)
         (set_simulation (scheduleEvent t a (simulation sys))
            (set_machine id (accepting m) sys))).
Proof.
  intros m. unfold call_startProcessing. fold m.
  destruct (rejects_dec p d m (simulation sys)) as [Hr|Hacc].
  - left. split; [exact Hr|]. rewrite startProcessing_rejected by exact Hr.
    unfold m. destruct sys, id; reflexivity.
  - right. split; [exact Hacc|]. destruct (breaks_dec m) as [Hbrk|Hok].
    + rewrite startProcessing_broken by assumption.
      eexists _, _, _. split; [left; repeat split; exact Hbrk|]. reflexivity.
    + rewrite startProcessing_accepted by assumption.
      eexists _, _, _. split; [right; repeat split; exact Hok|]. reflexivity.
Qed.

(** The members a call of [startProcessing] leaves alone. *)
Lemma call_startProcessing_frame id p d sys :
  let sys' := call_startProcessing id p d sys in
  productsCompleted sys' = productsCompleted sys ∧
  shiftDuration sys' = shiftDuration sys ∧
  currentShift sys' = currentShift sys ∧
  shiftCount sys' = shiftCount sys ∧
  shiftEndTime sys' = shiftEndTime sys ∧
  productQueue sys' = productQueue sys ∧
  now sys' = now sys ∧
  (∀ id', id ≠ id' → machine id' sys' = machine id' sys).
Proof.
  intros sys'. unfold sys'.
  destruct (call_startProcessing_cases id p d sys)
    as [[_ ->]|[_ (t & a & out & _ & ->)]]; [done|].
  repeat split. intros id' Hne. destruct id, id'; (reflexivity || congruence).
Qed.

Lemma startProduction_cons x rest sys :
  productQueue sys = x :: rest →
  startProduction sys
  = call_startProcessing RawMaterialHandler x (shiftEndTime sys)
      (set_productQueue rest sys).
Proof. intros Hq. unfold startProduction. rewrite Hq. reflexivity. Qed.

Lemma startProduction_nil sys : productQueue sys = [] → startProduction sys = sys.
Proof. intros Hq. unfold startProduction. rewrite Hq. reflexivity. Qed.

Lemma startProduction_frame sys :
  let sys' := startProduction sys in
  productsCompleted sys' = productsCompleted sys ∧
  shiftDuration sys' = shiftDuration sys ∧
  currentShift sys' = currentShift sys ∧
  shiftCount sys' = shiftCount sys ∧
  shiftEndTime sys' = shiftEndTime sys ∧
  productQueue sys' = tail (productQueue sys) ∧
  now sys' = now sys ∧
  (∀ id', RawMaterialHandler ≠ id' → machine id' sys' = machine id' sys).
Proof.
  intros sys'. unfold sys'. destruct (productQueue sys) as [|x rest] eqn:Hq.
  - rewrite startProduction_nil by exact Hq. rewrite Hq. done.
  - rewrite (startProduction_cons x rest) by exact Hq.
    pose proof (call_startProcessing_frame RawMaterialHandler x (shiftEndTime sys)
                  (set_productQueue rest sys)) as H.
    simpl in H. destruct H as (-> & -> & -> & -> & -> & -> & -> & Hm).
    repeat split. intros id' Hne. rewrite Hm by exact Hne.
    destruct id'; reflexivity.
Qed.
End LineFacts.

(** C6: [finishProduct] adds exactly one to [productsCompleted]; it goes on
    to [startProduction], which takes the next unit of the backlog, if any,
    to the first machine, when current time is strictly before the shift
    end, and does nothing more otherwise, in particular when the product
    finishes exactly at the shift end. *)
Theorem C6_finishProduct (p : string) (sys : ManufacturingSystem) :
  let counted :=
    print (ProductFinished p (now sys))
      (set_productsCompleted (productsCompleted sys + 1) sys) in
  productsCompleted (finishProduct p sys) = (productsCompleted sys + 1)%Z ∧
  ((now sys < shiftEndTime sys)%Q →
     finishProduct p sys = startProduction counted ∧
     productQueue (finishProduct p sys) = tail (productQueue sys) ∧
     ∀ x rest, productQueue sys = x :: rest →
       finishProduct p sys
       = call_startProcessing RawMaterialHandler x (shiftEndTime sys)
           (set_productQueue rest counted)) ∧
  (¬ (now sys < shiftEndTime sys)%Q →
     finishProduct p sys = counted ∧
     productQueue (finishProduct p sys) = productQueue sys ∧
     simulation (finishProduct p sys) = simulation sys ∧
     rawMaterialHandler (finishProduct p sys) = rawMaterialHandler sys) ∧
  ((now sys == shiftEndTime sys)%Q →
     productQueue (finishProduct p sys) = productQueue sys).
Proof.
  intros counted.
  assert (Hlt : (now sys < shiftEndTime sys)%Q → finishProduct p sys = startProduction counted).
  { intros H.
    change (finishProduct p sys)
      with (if Qltb (now sys) (shiftEndTime sys)
            then startProduction counted else counted).
    apply Qltb_lt in H. rewrite H. reflexivity. }
  assert (Hge : ¬ (now sys < shiftEndTime sys)%Q → finishProduct p sys = counted).
  { intros H.
    change (finishProduct p sys)
      with (if Qltb (now sys) (shiftEndTime sys)
            then startProduction counted else counted).
    destruct (Qltb (now sys) (shiftEndTime sys)) eqn:E; [|reflexivity].
    apply Qltb_lt in E. tauto. }
  pose proof (startProduction_frame counted) as Hframe. simpl in Hframe.
  destruct Hframe as (Hc & _ & _ & _ & _ & Hq & _).
  split; [|split; [|split]].
  - destruct (Qlt_le_dec (now sys) (shiftEndTime sys)) as [H|H].
    + rewrite Hlt by exact H. exact Hc.
    + rewrite Hge by (apply Qle_not_lt, H). reflexivity.
  - intros H. split; [apply Hlt, H|]. split.
    + rewrite Hlt by exact H. exact Hq.
    + intros x rest Hx. rewrite Hlt by exact H.
      exact (startProduction_cons x rest counted Hx).
  - intros H. rewrite Hge by exact H. done.
  - intros H. rewrite Hge; [done|]. rewrite H. apply Qlt_irrefl.
Qed.

Lemma C6_finishProduct_witness :
  let sys := ManufacturingSystem_run 1 (ManufacturingSystem_new 8 1 never_breaks) in
  (now sys < shiftEndTime sys)%Q ∧
  productQueue (finishProduct "ProductA" sys) = tail (productQueue sys).
Proof.
  intros sys. split; [vm_compute; reflexivity|].
  apply (proj1 (proj2 (C6_finishProduct "ProductA" sys))).
  vm_compute. reflexivity.
Defined.

(** ** Runs of the production line *)

Section RunFacts.
Implicit Types (sys : ManufacturingSystem) (id : MachineId).

Lemma step_inv sys sys' :
  step sys = Some sys' →
  ∃ e q0, eventQueue (simulation sys) = e :: q0 ∧
          sys' = perform (action e)
                   (set_simulation
                      (mkSimulation (time e) (Heap.pq_pop Event_gt (e :: q0)))
                      sys).
Proof.
  unfold step, run_step, Heap.pq_top. intros H.
  destruct (eventQueue (simulation sys)) as [|e q0] eqn:Hq; [discriminate|].
  simpl in H. injection H as <-. exists e, q0. split; reflexivity.
Qed.

Lemma step_None sys : step sys = None ↔ eventQueue (simulation sys) = [].
Proof.
  unfold step, run_step, Heap.pq_top.
  destruct (eventQueue (simulation sys)); simpl; split; congruence.
Qed.

Lemma simulation_run_S n sys :
  simulation_run (S n) sys
  = match step sys with
    | None => sys
    | Some sys' => simulation_run n sys'
    end.
Proof. reflexivity. Qed.

Lemma simulation_run_reaches n sys : reaches sys (simulation_run n sys).
Proof.
  assert (H : ∀ sys0 sys1, reaches sys0 sys1 → reaches sys0 (simulation_run n sys1)).
  { induction n as [|n IH]; intros sys0 sys1 Hr; [exact Hr|].
    rewrite simulation_run_S. destruct (step sys1) as [sys2|] eqn:Hs; [|exact Hr].
    apply IH. eapply reaches_step; eassumption. }
  apply H. constructor.
Qed.

(** The loop run one more time: the last iteration. *)
Lemma simulation_run_last n sys :
  simulation_run (S n) sys
  = match step (simulation_run n sys) with
    | None => simulation_run n sys
    | Some sys' => sys'
    end.
Proof.
  revert sys. induction n as [|n IH]; intros sys.
  - rewrite simulation_run_S. simpl. destruct (step sys); reflexivity.
  - rewrite simulation_run_S. destruct (step sys) as [sys1|] eqn:Hs.
    + rewrite IH. rewrite (simulation_run_S n sys), Hs. reflexivity.
    + rewrite (simulation_run_S n sys), Hs, Hs. reflexivity.
Qed.

(** An invariant of the loop holds in every state of a run. *)
Lemma reaches_invariant (P : ManufacturingSystem → Prop) sys0 :
  P sys0 → (∀ sys sys', P sys → step sys = Some sys' → P sys') →
  ∀ sys, reaches sys0 sys → P sys.
Proof. intros H0 Hstep sys Hr. induction Hr; eauto. Qed.
End RunFacts.

(** ** Time never moves backward *)

Section TimeFacts.
Implicit Types (sys : ManufacturingSystem) (id : MachineId).

Lemma inv_time_call id p d sys :
  inv_time sys → inv_time (call_startProcessing id p d sys).
Proof.
  intros (Hh & Hq & Hd & Hm).
  destruct (call_startProcessing_cases id p d sys)
    as [[_ ->]|[_ (t & a & out & Hta & ->)]]; [done|].
  pose proof (Hm id) as [Hmaint Htot]. specialize (Htot p).
  assert (Ht : (now sys <= t)%Q) by (destruct Hta as [(-> & _)|(-> & _)]; lra).
  split; [|split; [|split]].
  - apply heap_ok_push, Hh.
  - change (Forall (λ e, now sys <= time e)%Q
              (Heap.pq_push Event_gt (mkEvent t a) (eventQueue (simulation sys)))).
    rewrite HeapFacts.pq_push_perm. constructor; [exact Ht | exact Hq].
  - exact Hd.
  - intros id'. rewrite machine_after_call. case_decide; [subst|]; apply Hm.
Qed.

Lemma inv_time_startProduction sys : inv_time sys → inv_time (startProduction sys).
Proof.
  intros H. unfold startProduction. destruct (productQueue sys) as [|x rest]; [exact H|].
  apply inv_time_call. exact H.
Qed.

Lemma inject_Z_nonneg z : (0 <= z)%Z → (0 <= inject_Z z)%Q.
Proof. intros H. change 0%Q with (inject_Z 0). rewrite <- Zle_Qle. exact H. Qed.

Lemma inv_time_schedule t a sys :
  (now sys <= t)%Q → inv_time sys →
  inv_time (set_simulation (scheduleEvent t a (simulation sys)) sys).
Proof.
  intros Ht (Hh & Hq & Hd). split; [|split].
  - apply heap_ok_push, Hh.
  - change (Forall (λ e, now sys <= time e)%Q
              (Heap.pq_push Event_gt (mkEvent t a) (eventQueue (simulation sys)))).
    rewrite HeapFacts.pq_push_perm. constructor; [exact Ht | exact Hq].
  - exact Hd.
Qed.

Lemma inv_time_perform a sys : inv_time sys → inv_time (perform a sys).
Proof.
  intros H. destruct a as [| |self p d|self p].
  - apply inv_time_startProduction.
    apply (inv_time_schedule _ EndShiftAction
             (print (ShiftStarted (currentShift sys + 1) (now sys))
                (set_shiftEndTime (now sys + inject_Z (shiftDuration sys))
                   (set_currentShift (currentShift sys + 1) sys)))).
    + destruct H as (_ & _ & Hd & _). apply inject_Z_nonneg in Hd.
      change (now sys <= now sys + inject_Z (shiftDuration sys))%Q. lra.
    + exact H.
  - unfold perform, endShift.
    destruct (_ <? _)%Z; [|exact H].
    apply (inv_time_schedule _ StartShiftAction
             (print (ShiftEnded (currentShift sys) (now sys)) sys)).
    + apply Qle_refl.
    + exact H.
  - apply inv_time_call, H.
  - assert (Hidle : inv_time (finishProcessing self p sys)).
    { destruct H as (Hh & Hq & Hd & Hm). split; [exact Hh|]. split; [exact Hq|].
      split; [exact Hd|]. intros id.
      rewrite machine_finishProcessing. case_decide; [subst|]; apply Hm. }
    simpl. destruct self; try (apply inv_time_call, Hidle).
    unfold onProcessComplete, finishProduct.
    destruct (Qltb _ _); [apply inv_time_startProduction|]; exact Hidle.
Qed.

Lemma perform_frame a sys :
  now (perform a sys) = now sys ∧
  shiftCount (perform a sys) = shiftCount sys ∧
  shiftDuration (perform a sys) = shiftDuration sys.
Proof.
  destruct a as [| |self p d|self p]; simpl.
  - unfold startShift.
    match goal with |- context [startProduction ?s] =>
      destruct (startProduction_frame s) as (_ & Hd & _ & Hc & _ & _ & Hn & _) end.
    rewrite Hd, Hc, Hn. done.
  - unfold endShift. destruct (_ <? _)%Z; done.
  - destruct (call_startProcessing_frame self p d sys)
      as (_ & Hd & _ & Hc & _ & _ & Hn & _). rewrite Hd, Hc, Hn. done.
  - assert (Hcall : ∀ id d s, now (call_startProcessing id p d s) = now s ∧
              shiftCount (call_startProcessing id p d s) = shiftCount s ∧
              shiftDuration (call_startProcessing id p d s) = shiftDuration s).
    { intros id d s. destruct (call_startProcessing_frame id p d s)
        as (_ & Hd & _ & Hc & _ & _ & Hn & _). rewrite Hd, Hc, Hn. done. }
    destruct self; simpl;
      try (unfold startMachining, startAssembly, startQualityControl, startPackaging;
           rewrite !(proj1 (Hcall _ _ _)), !(proj1 (proj2 (Hcall _ _ _))),
             !(proj2 (proj2 (Hcall _ _ _))); done).
    unfold finishProduct. destruct (Qltb _ _); [|done].
    match goal with |- context [startProduction ?s] =>
      destruct (startProduction_frame s) as (_ & Hd & _ & Hc & _ & _ & Hn & _) end.
    rewrite Hd, Hc, Hn. done.
Qed.

Lemma inv_time_step sys sys' :
  inv_time sys → step sys = Some sys' →
  inv_time sys' ∧ (now sys <= now sys')%Q ∧
  ∃ e, Heap.pq_top (eventQueue (simulation sys)) = Some e ∧ now sys' = time e.
Proof.
  intros (Hh & Hq & Hd) Hs. apply step_inv in Hs as (e & q0 & Heq & ->).
  rewrite Heq in Hh, Hq.
  destruct (perform_frame (action e)
              (set_simulation (mkSimulation (time e) (Heap.pq_pop Event_gt (e :: q0))) sys))
    as (Hn & _).
  split; [|split].
  - apply inv_time_perform. split; [|split].
    + apply heap_ok_pop, Hh.
    + change (Forall (λ e', time e <= time e')%Q (Heap.pq_pop Event_gt (e :: q0))).
      rewrite HeapFacts.pq_pop_perm. apply heap_ok_top, Hh.
    + exact Hd.
  - rewrite Hn. apply Forall_cons_1 in Hq as [He _]. exact He.
  - exists e. rewrite Heq, Hn. split; reflexivity.
Qed.

Lemma subscript_productTimes a b p :
  subscript (productTimes a b) p = a ∨ subscript (productTimes a b) p = b
  ∨ subscript (productTimes a b) p = 0%Q.
Proof.
  unfold subscript, productTimes.
  destruct (decide (p = "ProductA")) as [->|Ha].
  - left. rewrite lookup_insert_eq. reflexivity.
  - rewrite lookup_insert_ne by congruence.
    destruct (decide (p = "ProductB")) as [->|Hb].
    + right. left. rewrite lookup_insert_eq. reflexivity.
    + right. right. rewrite lookup_insert_ne by congruence. reflexivity.
Qed.

Lemma productTimes_nonneg a b c d p :
  (0 <= a)%Q → (0 <= b)%Q → (0 <= c)%Q → (0 <= d)%Q →
  (0 <= subscript (productTimes a b) p + subscript (productTimes c d) p)%Q.
Proof.
  intros Ha Hb Hc Hd.
  destruct (subscript_productTimes a b p) as [-> | [-> | ->]];
    destruct (subscript_productTimes c d p) as [-> | [-> | ->]]; lra.
Qed.

Lemma durations_nonneg_new d c gens :
  (0 <= d)%Z → durations_nonneg (ManufacturingSystem_new d c gens).
Proof.
  intros Hd. split; [exact Hd|].
  intros id. destruct id; (split; [simpl; lra|]); intros p; simpl;
    apply productTimes_nonneg; lra.
Qed.

Lemma inv_time_run_entry sys :
  eventQueue (simulation sys) = [] → durations_nonneg sys →
  (now sys <= 0)%Q → inv_time (run_entry sys).
Proof.
  intros Hq Hd Hn. split; [|split; [|exact Hd]].
  - apply heap_ok_push. rewrite Hq. apply heap_ok_nil.
  - change (Forall (λ e, now sys <= time e)%Q
              (Heap.pq_push Event_gt (mkEvent 0 StartShiftAction)
                 (eventQueue (simulation sys)))).
    rewrite HeapFacts.pq_push_perm, Hq. constructor; [exact Hn|constructor].
Qed.

Lemma inv_time_reaches sys0 sys :
  inv_time sys0 → reaches sys0 sys → inv_time sys.
Proof.
  intros H0. apply reaches_invariant; [exact H0|].
  intros s s' Hs Hstep. apply (inv_time_step s s' Hs Hstep).
Qed.
End TimeFacts.

(** C4 (as the code has it): in a run of [ManufacturingSystem::run] with a
    shift duration that is not negative, every iteration of the loop sets
    current time to the timestamp of the event it takes from the queue, and
    that timestamp is not below the current time before the iteration; so
    current time never moves backward.  The condition on the shift duration
    is needed: see the counterexample below. *)
Theorem C4_time_never_moves_backward (d c : Z) (gens : MachineId → nat → Q) :
  (0 <= d)%Z →
  let sys0 := ManufacturingSystem_new d c gens in
  (∀ sys sys',
     reaches (run_entry sys0) sys → step sys = Some sys' →
     (now sys <= now sys')%Q ∧
     ∃ e, Heap.pq_top (eventQueue (simulation sys)) = Some e ∧ now sys' = time e) ∧
  time_never_moves_backward sys0.
Proof.
  intros Hd sys0.
  assert (H0 : inv_time (run_entry sys0)).
  { apply inv_time_run_entry; [reflexivity | apply durations_nonneg_new, Hd
                               | apply Qle_refl]. }
  assert (Hstep : ∀ sys sys',
     reaches (run_entry sys0) sys → step sys = Some sys' →
     (now sys <= now sys')%Q ∧
     ∃ e, Heap.pq_top (eventQueue (simulation sys)) = Some e ∧ now sys' = time e).
  { intros sys sys' Hr Hs.
    apply (inv_time_step sys sys' (inv_time_reaches _ _ H0 Hr) Hs). }
  split; [exact Hstep|].
  intros n. unfold ManufacturingSystem_run. rewrite simulation_run_last.
  destruct (step (simulation_run n (run_entry sys0))) as [sys'|] eqn:Hs;
    [|apply Qle_refl].
  apply (Hstep _ _ (simulation_run_reaches n _) Hs).
Qed.

Lemma C4_time_never_moves_backward_witness :
  (now (ManufacturingSystem_run 3 (ManufacturingSystem_new 8 1 never_breaks))
   <= now (ManufacturingSystem_run 4 (ManufacturingSystem_new 8 1 never_breaks)))%Q.
Proof.
  exact (proj2 (C4_time_never_moves_backward 8 1 never_breaks ltac:(lia)) 3).
Defined.

(** C4 fails as stated: the constructor takes any [int] as shift duration
    and [main] passes on what it reads.  In [ManufacturingSystem(-5, 1)]
    the first iteration runs [startShift] at time 0, which schedules
    [endShift] for time -5; the second iteration takes that event and
    moves current time from 0 back to -5. *)
Lemma C4_time_moves_backward_counterexample :
  (now (ManufacturingSystem_run 1 (ManufacturingSystem_new (-5) 1 never_breaks)) == 0)%Q ∧
  (now (ManufacturingSystem_run 2 (ManufacturingSystem_new (-5) 1 never_breaks)) == -5)%Q ∧
  ¬ time_never_moves_backward (ManufacturingSystem_new (-5) 1 never_breaks).
Proof.
  split; [vm_compute; reflexivity|]. split; [vm_compute; reflexivity|].
  intros H. specialize (H 1). revert H. vm_compute. intros H. apply H. reflexivity.
Qed.


(** ** Events added by the actions *)

Section QueueFacts.
Implicit Types (sys : ManufacturingSystem) (id : MachineId)
  (q : list (Event Action)).

Lemma count_cons f e q : count f (e :: q) = f (action e) + count f q.
Proof. reflexivity. Qed.

Lemma count_push f e q : count f (Heap.pq_push Event_gt e q) = f (action e) + count f q.
Proof. unfold count. rewrite HeapFacts.pq_push_perm. reflexivity. Qed.

Lemma count_pop f e q : count f (Heap.pq_pop Event_gt (e :: q)) = count f q.
Proof. unfold count. rewrite HeapFacts.pq_pop_perm. reflexivity. Qed.

(** A call of [startProcessing] adds no event, or one event, of the machine
    called. *)
Lemma call_queue id p d sys :
  eventQueue (simulation (call_startProcessing id p d sys))
  = eventQueue (simulation sys) ∨
  ∃ t a, is_machine_event a = 1 ∧
         eventQueue (simulation (call_startProcessing id p d sys))
         = Heap.pq_push Event_gt (mkEvent t a) (eventQueue (simulation sys)).
Proof.
  destruct (call_startProcessing_cases id p d sys)
    as [[_ ->]|[_ (t & a & out & Hta & ->)]]; [left; reflexivity|].
  right. exists t, a. split; [|reflexivity].
  destruct Hta as [(_ & -> & _)|(_ & -> & _)]; reflexivity.
Qed.

Lemma count_call f id p d sys :
  ignores_machines f →
  count f (eventQueue (simulation (call_startProcessing id p d sys)))
  = count f (eventQueue (simulation sys)).
Proof.
  intros Hf. destruct (call_queue id p d sys) as [->|(t & a & Ha & ->)];
    [reflexivity|].
  rewrite count_push. simpl. rewrite (Hf a Ha). reflexivity.
Qed.

Lemma count_startProduction f sys :
  ignores_machines f →
  count f (eventQueue (simulation (startProduction sys)))
  = count f (eventQueue (simulation sys)).
Proof.
  intros Hf. unfold startProduction. destruct (productQueue sys); [reflexivity|].
  rewrite count_call by exact Hf. reflexivity.
Qed.

Lemma count_onProcessComplete f self p sys :
  ignores_machines f →
  count f (eventQueue (simulation (onProcessComplete self p sys)))
  = count f (eventQueue (simulation sys)).
Proof.
  intros Hf. destruct self; simpl;
    try (unfold startMachining, startAssembly, startQualityControl, startPackaging;
         rewrite count_call by exact Hf; reflexivity).
  unfold finishProduct. destruct (Qltb _ _); [|reflexivity].
  rewrite count_startProduction by exact Hf. reflexivity.
Qed.

Lemma ignores_machines_StartShift : ignores_machines is_StartShift.
Proof. intros [| | |]; simpl; congruence. Qed.

Lemma ignores_machines_EndShift : ignores_machines is_EndShift.
Proof. intros [| | |]; simpl; congruence. Qed.

(** The shift events an action adds. *)
Lemma count_perform f a sys :
  ignores_machines f →
  count f (eventQueue (simulation (perform a sys)))
  = match a with
    | StartShiftAction => f EndShiftAction
    | EndShiftAction =>
        if (currentShift sys <? shiftCount sys)%Z then f StartShiftAction else 0
    | _ => 0
    end + count f (eventQueue (simulation sys)).
Proof.
  intros Hf. destruct a as [| |self p d|self p]; simpl.
  - unfold startShift. rewrite count_startProduction by exact Hf.
    simpl. rewrite count_push. reflexivity.
  - unfold endShift. simpl. destruct (_ <? _)%Z; simpl; [|reflexivity].
    rewrite count_push. reflexivity.
  - apply count_call, Hf.
  - rewrite count_onProcessComplete by exact Hf. reflexivity.
Qed.

Lemma perform_currentShift a sys :
  currentShift (perform a sys)
  = (currentShift sys + Z.of_nat (is_StartShift a))%Z.
Proof.
  destruct a as [| |self p d|self p]; simpl.
  - unfold startShift.
    match goal with |- context [startProduction ?s] =>
      destruct (startProduction_frame s) as (_ & _ & -> & _) end.
    reflexivity.
  - unfold endShift. destruct (_ <? _)%Z; simpl; lia.
  - destruct (call_startProcessing_frame self p d sys) as (_ & _ & -> & _). lia.
  - rewrite Z.add_0_r. destruct self; simpl;
      try (unfold startMachining, startAssembly, startQualityControl, startPackaging;
           match goal with |- context [call_startProcessing ?i ?p ?d ?s] =>
             destruct (call_startProcessing_frame i p d s) as (_ & _ & -> & _) end;
           reflexivity).
    unfold finishProduct. destruct (Qltb _ _); [|reflexivity].
    match goal with |- context [startProduction ?s] =>
      destruct (startProduction_frame s) as (_ & _ & -> & _) end.
    reflexivity.
Qed.
End QueueFacts.

(** ** Shifts *)

Section ShiftFacts.
Implicit Types (sys : ManufacturingSystem).

Lemma inv_shift_step sys sys' :
  inv_shift sys → step sys = Some sys' →
  inv_shift sys' ∧
  ∃ e, Heap.pq_top (eventQueue (simulation sys)) = Some e ∧
       currentShift sys' = (currentShift sys + Z.of_nat (is_StartShift (action e)))%Z.
Proof.
  intros (Hcnt & Hrange & Hstart) Hs. apply step_inv in Hs as (e & q0 & Heq & ->).
  rewrite Heq in Hcnt, Hstart. rewrite !count_cons in Hcnt. rewrite count_cons in Hstart.
  set (s1 := set_simulation (mkSimulation (time e) (Heap.pq_pop Event_gt (e :: q0))) sys).
  destruct (perform_frame (action e) s1) as (_ & Hsc & _).
  pose proof (perform_currentShift (action e) s1) as Hcs.
  pose proof (count_perform is_StartShift (action e) s1 ignores_machines_StartShift) as HS.
  pose proof (count_perform is_EndShift (action e) s1 ignores_machines_EndShift) as HE.
  change (eventQueue (simulation s1)) with (Heap.pq_pop Event_gt (e :: q0)) in HS, HE.
  rewrite count_pop in HS, HE.
  change (currentShift s1) with (currentShift sys) in *.
  change (shiftCount s1) with (shiftCount sys) in *.
  split.
  - unfold inv_shift, last_shift in *. rewrite Hsc, Hcs, HS, HE. clear HS HE Hcs Hsc.
    destruct (action e) as [| |self p d|self p]; simpl in *.
    + lia.
    + destruct (currentShift sys <? shiftCount sys)%Z eqn:Hlt; simpl;
        [apply Z.ltb_lt in Hlt|]; lia.
    + lia.
    + lia.
  - exists e. rewrite Heq. split; [reflexivity | exact Hcs].
Qed.

Lemma inv_shift_run_entry sys :
  eventQueue (simulation sys) = [] → currentShift sys = 0%Z →
  inv_shift (run_entry sys).
Proof.
  intros Hq Hc. unfold inv_shift, last_shift. simpl.
  rewrite !count_push, Hq, Hc. simpl. lia.
Qed.
End ShiftFacts.

(** C5 (as the code has it): [startShift] adds exactly one to
    [currentShift] and nothing else changes it; in every run, whatever the
    number of shifts asked for, [currentShift] stays between 0 and
    max(shiftCount, 1); [endShift] leaves current time as it is and, when
    [currentShift < shiftCount], adds one [startShift] event for the
    current time to the pending events and prints the end of the shift;
    otherwise it schedules nothing and prints the end of the shift and the
    results.  The bound [shiftCount] itself holds only for runs of at least
    one shift: see the counterexample below. *)
Theorem C5_shift_progression (d c : Z) (gens : MachineId → nat → Q) :
  let sys0 := ManufacturingSystem_new d c gens in
  (∀ sys, currentShift (startShift sys) = (currentShift sys + 1)%Z) ∧
  (∀ sys, reaches (run_entry sys0) sys →
     shiftCount sys = c ∧ (0 <= currentShift sys <= Z.max c 1)%Z ∧
     ∀ sys', step sys = Some sys' →
       ∃ e, Heap.pq_top (eventQueue (simulation sys)) = Some e ∧
            currentShift sys'
            = (currentShift sys
               + match action e with StartShiftAction => 1 | _ => 0 end)%Z) ∧
  ((1 <= c)%Z → currentShift_within_shiftCount sys0) ∧
  (∀ sys,
     now (endShift sys) = now sys ∧
     ((currentShift sys < shiftCount sys)%Z →
        eventQueue (simulation (endShift sys))
        ≡ₚ mkEvent (now sys) StartShiftAction :: eventQueue (simulation sys) ∧
        cout (endShift sys) = cout sys ++ [ShiftEnded (currentShift sys) (now sys)]) ∧
     (¬ (currentShift sys < shiftCount sys)%Z →
        simulation (endShift sys) = simulation sys ∧
        cout (endShift sys)
        = cout sys ++ [ShiftEnded (currentShift sys) (now sys)]
                   ++ [SimulationResults (productsCompleted sys) (now sys)])).
Proof.
  intros sys0.
  assert (Hinv : ∀ sys, reaches (run_entry sys0) sys →
                        inv_shift sys ∧ shiftCount sys = c).
  { apply reaches_invariant.
    - split; [|reflexivity]. apply inv_shift_run_entry; reflexivity.
    - intros s s' [Hi Hsc] Hs. split; [apply (inv_shift_step s s' Hi Hs)|].
      apply step_inv in Hs as (e & q0 & _ & ->).
      destruct (perform_frame (action e)
                  (set_simulation (mkSimulation (time e)
                     (Heap.pq_pop Event_gt (e :: q0))) s)) as (_ & -> & _).
      exact Hsc. }
  split; [|split; [|split]].
  - intros sys. apply (perform_currentShift StartShiftAction sys).
  - intros sys Hr. destruct (Hinv sys Hr) as [Hi Hsc]. split; [exact Hsc|].
    split.
    + destruct Hi as (_ & Hrange & _). unfold last_shift in Hrange.
      rewrite Hsc in Hrange. exact Hrange.
    + intros sys' Hs. destruct (inv_shift_step sys sys' Hi Hs) as [_ (e & He & Hcs)].
      exists e. split; [exact He|]. rewrite Hcs. destruct (action e); reflexivity.
  - intros Hc sys Hr. destruct (Hinv sys Hr) as [(_ & Hrange & _) Hsc].
    unfold last_shift in Hrange. lia.
  - intros sys. split; [|split]; [|intros Hlt..]; unfold endShift; simpl.
    + destruct (_ <? _)%Z; reflexivity.
    + apply Z.ltb_lt in Hlt. rewrite Hlt. simpl.
      split; [apply HeapFacts.pq_push_perm | reflexivity].
    + apply Z.ltb_nlt in Hlt. rewrite Hlt. simpl. rewrite <- app_assoc.
      split; reflexivity.
Qed.

Lemma C5_shift_progression_witness :
  let sys := ManufacturingSystem_run 2 (ManufacturingSystem_new 8 2 never_breaks) in
  (currentShift sys <= shiftCount sys)%Z.
Proof.
  intros sys.
  exact (proj1 (proj2 (proj2 (C5_shift_progression 8 2 never_breaks)))
           ltac:(lia) sys (simulation_run_reaches 2 _)).
Defined.

(** C5 fails as stated: the constructor takes any [int] as number of shifts
    and [run] schedules the first [startShift] without looking at it.  In
    [ManufacturingSystem(8, 0)] the first iteration runs [startShift], and
    [currentShift] is 1 while [shiftCount] is 0. *)
Lemma C5_currentShift_exceeds_shiftCount_counterexample :
  currentShift (ManufacturingSystem_run 1 (ManufacturingSystem_new 8 0 never_breaks))
  = 1%Z ∧
  shiftCount (ManufacturingSystem_run 1 (ManufacturingSystem_new 8 0 never_breaks))
  = 0%Z ∧
  ¬ currentShift_within_shiftCount (ManufacturingSystem_new 8 0 never_breaks).
Proof.
  split; [reflexivity|]. split; [reflexivity|].
  intros H.
  specialize (H _ (simulation_run_reaches 1
                     (run_entry (ManufacturingSystem_new 8 0 never_breaks)))).
  revert H. vm_compute. intros H. apply H. reflexivity.
Qed.


(** ** One unit per machine *)

Section BusyFacts.
Implicit Types (sys : ManufacturingSystem) (id : MachineId).

(** A call of [startProcessing]: nothing happens, or an idle machine
    becomes busy, prints that it started and gets one pending event. *)
Lemma call_effect id p d sys :
  call_startProcessing id p d sys = sys ∨
  (isBusy (machine id sys) = false ∧
   ∃ t a out,
     (a = RetryAction id p d ∨ a = CompleteAction id p) ∧
     (∀ id', sum_list_with (is_started id') out
             = if decide (name (machine id sys) = machine_name id') then 1 else 0) ∧
     call_startProcessing id p d sys
     = set_cout (cout sys ++ out)
         (set_simulation (scheduleEvent t a (simulation sys))
            (set_machine id (accepting (machine id sys)) sys))).
Proof.
  destruct (call_startProcessing_cases id p d sys)
    as [[_ ->]|[Hacc (t & a & out & Hta & ->)]]; [left; reflexivity|].
  right. split.
  { destruct (isBusy (machine id sys)) eqn:Hb; [|reflexivity].
    exfalso. apply Hacc. left. exact Hb. }
  exists t, a, out. split; [|split; [|reflexivity]].
  - destruct Hta as [(_ & -> & _)|(_ & -> & _)]; auto.
  - intros id'. destruct Hta as [(_ & _ & _ & ->)|(_ & _ & _ & ->)]; simpl;
      case_decide; reflexivity.
Qed.

Lemma event_of_machine id id' p d a :
  a = RetryAction id p d ∨ a = CompleteAction id p →
  event_of id' a = if decide (id = id') then 1 else 0.
Proof. intros [->| ->]; reflexivity. Qed.

Lemma inv_busy_call id p d sys :
  inv_busy sys → inv_busy (call_startProcessing id p d sys).
Proof.
  intros H. destruct (call_effect id p d sys)
    as [->|(Hidle & t & a & out & Ha & _ & ->)]; [exact H|].
  intros id'. rewrite machine_after_call.
  change (count (event_of id')
            (Heap.pq_push Event_gt (mkEvent t a) (eventQueue (simulation sys)))
          ≤ if isBusy (if decide (id = id') then accepting (machine id sys)
                       else machine id' sys) then 1 else 0).
  rewrite count_push. simpl. rewrite (event_of_machine id id' p d a Ha).
  specialize (H id'). case_decide as Hid.
  - subst id'. rewrite Hidle in H. simpl. lia.
  - exact H.
Qed.

Lemma inv_busy_startProduction sys : inv_busy sys → inv_busy (startProduction sys).
Proof.
  intros H. unfold startProduction. destruct (productQueue sys); [exact H|].
  apply inv_busy_call. exact H.
Qed.

Lemma inv_busy_push t a sys :
  is_machine_event a = 0 → inv_busy sys →
  inv_busy (set_simulation (scheduleEvent t a (simulation sys)) sys).
Proof.
  intros Ha H id.
  change (count (event_of id)
            (Heap.pq_push Event_gt (mkEvent t a) (eventQueue (simulation sys)))
          ≤ if isBusy (machine id sys) then 1 else 0).
  rewrite count_push. simpl. specialize (H id).
  destruct a; simpl in *; (lia || discriminate).
Qed.

(** Performing the action of an event just taken from the queue. *)
Lemma inv_busy_perform a sys :
  inv_busy sys →
  (∀ self p, a = CompleteAction self p →
             count (event_of self) (eventQueue (simulation sys)) = 0) →
  inv_busy (perform a sys).
Proof.
  intros H Hdone. destruct a as [| |self p d|self p]; simpl.
  - apply inv_busy_startProduction.
    apply (inv_busy_push _ EndShiftAction
             (print (ShiftStarted (currentShift sys + 1) (now sys))
                (set_shiftEndTime (now sys + inject_Z (shiftDuration sys))
                   (set_currentShift (currentShift sys + 1) sys))));
      [reflexivity | exact H].
  - unfold endShift. destruct (_ <? _)%Z; [|exact H].
    apply (inv_busy_push _ StartShiftAction
             (print (ShiftEnded (currentShift sys) (now sys)) sys));
      [reflexivity | exact H].
  - apply inv_busy_call, H.
  - assert (Hidle : inv_busy (finishProcessing self p sys)).
    { intros id. rewrite machine_finishProcessing.
      change (eventQueue (simulation (finishProcessing self p sys)))
        with (eventQueue (simulation sys)).
      case_decide as Hid; [subst id; rewrite (Hdone self p eq_refl); lia | apply H]. }
    destruct self; simpl; try (apply inv_busy_call, Hidle).
    unfold finishProduct. destruct (Qltb _ _); [apply inv_busy_startProduction|];
      exact Hidle.
Qed.

Lemma inv_busy_step sys sys' :
  inv_busy sys → step sys = Some sys' → inv_busy sys'.
Proof.
  intros H Hs. apply step_inv in Hs as (e & q0 & Heq & ->).
  assert (Hq0 : ∀ id, count (event_of id) (e :: q0)
                      ≤ if isBusy (machine id sys) then 1 else 0).
  { intros id. rewrite <- Heq. apply H. }
  apply inv_busy_perform.
  - intros id. specialize (Hq0 id). rewrite count_cons in Hq0.
    change (count (event_of id) (Heap.pq_pop Event_gt (e :: q0))
            ≤ if isBusy (machine id sys) then 1 else 0).
    rewrite count_pop. lia.
  - intros self p Ha. specialize (Hq0 self). rewrite count_cons, Ha in Hq0.
    change (count (event_of self) (Heap.pq_pop Event_gt (e :: q0)) = 0).
    rewrite count_pop. simpl in Hq0. rewrite decide_True in Hq0 by reflexivity.
    destruct (isBusy (machine self sys)); lia.
Qed.

(** While an event of a machine is pending the machine is busy; a retry
    therefore always finds its machine busy, and does nothing. *)
Lemma inv_busy_retry sys self p d t q0 :
  inv_busy sys →
  eventQueue (simulation sys) = mkEvent t (RetryAction self p d) :: q0 →
  ∀ sim, perform (RetryAction self p d) (set_simulation sim sys)
         = set_simulation sim sys.
Proof.
  intros H Heq sim. apply retry_while_busy.
  specialize (H self). rewrite Heq, count_cons in H. simpl in H.
  rewrite decide_True in H by reflexivity.
  change (machine self (set_simulation sim sys)) with (machine self sys).
  destruct (isBusy (machine self sys)); [reflexivity | lia].
Qed.

Lemma inv_busy_reaches d c gens sys :
  reaches (run_entry (ManufacturingSystem_new d c gens)) sys → inv_busy sys.
Proof.
  apply reaches_invariant; [|apply inv_busy_step].
  intros id. destruct id; vm_compute; lia.
Qed.
End BusyFacts.

(** In every run of the program a retry finds its machine busy: the
    iteration that takes a retry event from the queue changes nothing but
    the queue and the clock. *)
Lemma retry_is_always_rejected (d c : Z) (gens : MachineId → nat → Q)
    (sys sys' : ManufacturingSystem) (t : Q) (self : MachineId)
    (p : string) (dl : Q) :
  reaches (run_entry (ManufacturingSystem_new d c gens)) sys →
  Heap.pq_top (eventQueue (simulation sys)) = Some (mkEvent t (RetryAction self p dl)) →
  step sys = Some sys' →
  sys' = set_simulation
           (mkSimulation t (Heap.pq_pop Event_gt (eventQueue (simulation sys)))) sys
  ∧ isBusy (machine self sys') = true.
Proof.
  intros Hr Htop Hs.
  pose proof (inv_busy_reaches d c gens sys Hr) as Hb.
  apply step_inv in Hs as (e & q0 & Heq & ->).
  rewrite Heq in Htop |- *. injection Htop as ->.
  cbn [time action].
  rewrite (inv_busy_retry sys self p dl t q0 Hb Heq). split; [reflexivity|].
  specialize (Hb self). rewrite Heq, count_cons in Hb. simpl in Hb.
  rewrite decide_True in Hb by reflexivity.
  change (isBusy (machine self sys) = true).
  destruct (isBusy (machine self sys)); [reflexivity | lia].
Qed.

(** C2 (the code departs from it): in [ManufacturingSystem(30, 1)], with a
    first sample below the breakdown probability and later samples above
    it, the first machine breaks down on the first unit at time 0 and a
    retry is scheduled for time 1.  At time 1 the unit still fits (1 + 2 is
    below 30) and the next sample means no breakdown, yet the retry does
    nothing, because [isBusy] is still set: the unit is never processed and
    the machine is still busy when the run ends. *)
Theorem C2_retry_after_breakdown_is_rejected :
  let sys0 := ManufacturingSystem_new 30 1 breaks_once in
  let broken := ManufacturingSystem_run 1 sys0 in
  let retried := ManufacturingSystem_run 2 sys0 in
  let final := ManufacturingSystem_run 4 sys0 in
  (isBusy (rawMaterialHandler broken) = true ∧
   Heap.pq_top (eventQueue (simulation broken))
   = Some (mkEvent (0 + 1.0) (RetryAction RawMaterialHandler "ProductA"
                                (0 + inject_Z 30)))) ∧
  (¬ (generator (rawMaterialHandler broken) 0
      < breakdownProbability (rawMaterialHandler broken))%Q ∧
   (now retried + subscript (processTimes (rawMaterialHandler broken)) "ProductA"
    <= shiftEndTime retried)%Q) ∧
  (retried = set_simulation
               (mkSimulation (0 + 1.0)
                  [mkEvent (0 + inject_Z 30) EndShiftAction]) broken) ∧
  (step final = None ∧
   isAvailable (rawMaterialHandler final) = false ∧
   productsCompleted final = 0%Z ∧
   cout final = [ShiftStarted 1 0;
                 MachineStarted "Raw Material Handler" "ProductA" 0;
                 MachineBrokeDown "Raw Material Handler";
                 ShiftEnded 1 (0 + inject_Z 30);
                 SimulationResults 0 (0 + inject_Z 30)]).
Proof.
  vm_compute. repeat split; discriminate.
Qed.


(** ** The configuration of the machines never changes *)

Section ConfigFacts.
Implicit Types (sys : ManufacturingSystem) (id : MachineId).

Lemma same_config_refl m : same_config m m.
Proof. repeat split. Qed.

Lemma call_config id p d sys id' :
  same_config (machine id' (call_startProcessing id p d sys)) (machine id' sys).
Proof.
  destruct (call_effect id p d sys) as [->|(_ & t & a & out & _ & _ & ->)];
    [apply same_config_refl|].
  rewrite machine_after_call. case_decide; [subst|]; repeat split.
Qed.

Lemma startProduction_config sys id :
  same_config (machine id (startProduction sys)) (machine id sys).
Proof.
  unfold startProduction. destruct (productQueue sys); [apply same_config_refl|].
  apply (call_config RawMaterialHandler _ _ (set_productQueue _ sys)).
Qed.

Lemma finishProcessing_config self p sys id :
  same_config (machine id (finishProcessing self p sys)) (machine id sys).
Proof.
  rewrite machine_finishProcessing. case_decide; [subst|]; repeat split.
Qed.

Lemma same_config_trans m1 m2 m3 :
  same_config m1 m2 → same_config m2 m3 → same_config m1 m3.
Proof.
  intros (? & ? & ? & ? & ?) (? & ? & ? & ? & ?). repeat split; congruence.
Qed.

Lemma perform_config a sys id :
  same_config (machine id (perform a sys)) (machine id sys).
Proof.
  destruct a as [| |self p d|self p]; simpl.
  - unfold startShift.
    match goal with |- context [startProduction ?s] =>
      apply (startProduction_config s id) end.
  - unfold endShift. destruct (_ <? _)%Z; apply same_config_refl.
  - apply call_config.
  - eapply same_config_trans; [|apply (finishProcessing_config self p sys id)].
    destruct self; simpl; try apply call_config.
    unfold finishProduct. destruct (Qltb _ _); [|apply same_config_refl].
    match goal with |- context [startProduction ?s] =>
      apply (startProduction_config s id) end.
Qed.

Lemma step_config sys sys' id :
  step sys = Some sys' → same_config (machine id sys') (machine id sys).
Proof.
  intros Hs. apply step_inv in Hs as (e & q0 & _ & ->).
  apply (perform_config (action e)
           (set_simulation (mkSimulation (time e) (Heap.pq_pop Event_gt (e :: q0))) sys)).
Qed.

Lemma names_ok_step sys sys' : names_ok sys → step sys = Some sys' → names_ok sys'.
Proof.
  intros H Hs id. destruct (step_config sys sys' id Hs) as (-> & _). apply H.
Qed.

Lemma machine_name_inj id id' : machine_name id = machine_name id' → id = id'.
Proof. destruct id, id'; simpl; congruence. Qed.
End ConfigFacts.

(** ** Conservation of units *)

Section ConservationFacts.
Implicit Types (sys : ManufacturingSystem) (id : MachineId).

Ltac account := repeat split; first [lia | auto].

(** A call of [startProcessing] on machine [id]: [k] units enter the line,
    and machine [id] starts [k] units, with [k] at most one. *)
Lemma call_account id p d sys :
  names_ok sys →
  ∃ k, k ≤ 1 ∧
    units (call_startProcessing id p d sys) = units sys + k ∧
    started RawMaterialHandler (call_startProcessing id p d sys)
    = started RawMaterialHandler sys
      + (if decide (id = RawMaterialHandler) then k else 0).
Proof.
  intros Hn. unfold units. destruct (call_effect id p d sys)
    as [->|(_ & t & a & out & Ha & Hout & ->)].
  - exists 0. split; [lia|]. split; [lia|]. case_decide; lia.
  - exists 1. split; [lia|]. split.
    + change (count is_machine_event
                (Heap.pq_push Event_gt (mkEvent t a) (eventQueue (simulation sys)))
              = count is_machine_event (eventQueue (simulation sys)) + 1).
      rewrite count_push. simpl. destruct Ha as [->| ->]; simpl; lia.
    + unfold started. simpl. rewrite sum_list_with_app, Hout, Hn. f_equal.
      case_decide as H1; case_decide as H2; try reflexivity.
      * apply machine_name_inj in H1. contradiction.
      * subst id. contradiction.
Qed.

Lemma startProduction_account sys :
  names_ok sys →
  ∃ k, k ≤ 1 ∧
    units (startProduction sys) = units sys + k ∧
    started RawMaterialHandler (startProduction sys)
    = started RawMaterialHandler sys + k ∧
    length (productQueue (startProduction sys)) + k ≤ length (productQueue sys).
Proof.
  intros Hn. destruct (startProduction_frame sys) as (_ & _ & _ & _ & _ & Hq & _).
  rewrite Hq. unfold startProduction. destruct (productQueue sys) as [|x rest].
  - exists 0. unfold units. simpl. lia.
  - destruct (call_account RawMaterialHandler x (shiftEndTime sys)
                (set_productQueue rest sys) Hn) as (k & Hk & Hu & Hs).
    rewrite decide_True in Hs by reflexivity.
    exists k. simpl. account.
Qed.

(** The account of an action: [dc] units are completed, [k] units (re)enter
    the line, the first machine starts [j] units, taken from the backlog. *)
Lemma perform_account a sys :
  names_ok sys →
  (∀ self p d, a = RetryAction self p d → isBusy (machine self sys) = true) →
  ∃ dc k j,
    productsCompleted (perform a sys) = (productsCompleted sys + Z.of_nat dc)%Z ∧
    units (perform a sys) = units sys + k ∧
    started RawMaterialHandler (perform a sys) = started RawMaterialHandler sys + j ∧
    length (productQueue (perform a sys)) + j ≤ length (productQueue sys) ∧
    dc + k ≤ is_machine_event a + j ∧
    (productQueue (perform a sys) = productQueue sys
     ∨ productQueue (perform a sys) = tail (productQueue sys)).
Proof.
  intros Hn Hretry. destruct a as [| |self p d|self p].
  - change (perform StartShiftAction sys) with (startShift sys). unfold startShift.
    match goal with |- context [startProduction ?s] => set (s2 := s) end.
    destruct (startProduction_account s2 Hn) as (k & Hk & Hu & Hs & Hq).
    destruct (startProduction_frame s2) as (Hc & _ & _ & _ & _ & Hpq & _).
    exists 0, k, k. rewrite Hc, Hu, Hs, Hpq.
    replace (units s2) with (units sys)
      by (unfold s2, units; simpl; rewrite count_push; reflexivity).
    replace (started RawMaterialHandler s2) with (started RawMaterialHandler sys)
      by (unfold s2, started; simpl; rewrite sum_list_with_app; simpl; lia).
    rewrite Hpq in Hq. change (productQueue s2) with (productQueue sys) in *.
    simpl. account.
  - exists 0, 0, 0. change (perform EndShiftAction sys) with (endShift sys).
    unfold endShift, units. destruct (_ <? _)%Z; simpl.
    + rewrite count_push. unfold started. simpl. rewrite sum_list_with_app. simpl.
      account.
    + unfold started. simpl. rewrite !sum_list_with_app. simpl.
      account.
  - rewrite retry_while_busy by (eapply Hretry; reflexivity).
    exists 0, 0, 0. simpl. account.
  - change (perform (CompleteAction self p) sys)
      with (onProcessComplete self p (finishProcessing self p sys)).
    set (s1 := finishProcessing self p sys).
    assert (Hn1 : names_ok s1).
    { intros id. unfold s1.
      destruct (finishProcessing_config self p sys id) as (-> & _). apply Hn. }
    assert (Hs1 : started RawMaterialHandler s1 = started RawMaterialHandler sys).
    { unfold s1, started, finishProcessing. simpl. rewrite sum_list_with_app. simpl. lia. }
    assert (Hcall : ∀ id dl, id ≠ RawMaterialHandler →
      ∃ dc k j,
        productsCompleted (call_startProcessing id p dl s1)
        = (productsCompleted sys + Z.of_nat dc)%Z ∧
        units (call_startProcessing id p dl s1) = units sys + k ∧
        started RawMaterialHandler (call_startProcessing id p dl s1)
        = started RawMaterialHandler sys + j ∧
        length (productQueue (call_startProcessing id p dl s1)) + j
        ≤ length (productQueue sys) ∧
        dc + k ≤ 1 + j ∧
        (productQueue (call_startProcessing id p dl s1) = productQueue sys
         ∨ productQueue (call_startProcessing id p dl s1) = tail (productQueue sys))).
    { intros id dl Hid.
      destruct (call_account id p dl s1 Hn1) as (k & Hk & Hu & Hs).
      destruct (call_startProcessing_frame id p dl s1) as (Hc & _ & _ & _ & _ & Hpq & _).
      rewrite decide_False in Hs by exact Hid.
      exists 0, k, 0. rewrite Hc, Hu, Hs, Hpq, Hs1.
      change (units s1) with (units sys).
      change (productQueue s1) with (productQueue sys).
      change (productsCompleted s1) with (productsCompleted sys).
      account. }
    destruct self; simpl; try (apply Hcall; discriminate).
    unfold finishProduct.
    match goal with |- context [startProduction ?s] => set (s2 := s) end.
    change (now s2) with (now sys). change (shiftEndTime s2) with (shiftEndTime sys).
    assert (Hs2 : started RawMaterialHandler s2 = started RawMaterialHandler sys).
    { unfold s2, started. simpl. rewrite !sum_list_with_app. simpl. lia. }
    destruct (Qltb (now sys) (shiftEndTime sys)).
    + destruct (startProduction_account s2 Hn1) as (k & Hk & Hu & Hs & Hq).
      destruct (startProduction_frame s2) as (Hc & _ & _ & _ & _ & Hpq & _).
      exists 1, k, k. rewrite Hc, Hu, Hs, Hs2. rewrite Hpq in Hq |- *.
      change (units s2) with (units sys).
      change (productQueue s2) with (productQueue sys) in *.
      change (productsCompleted s2) with (productsCompleted sys + 1)%Z.
      account.
    + exists 1, 0, 0. rewrite Hs2.
      change (units s2) with (units sys).
      change (productQueue s2) with (productQueue sys).
      change (productsCompleted s2) with (productsCompleted sys + 1)%Z.
      account.
Qed.

Lemma inv_line_step backlog sys sys' :
  inv_line backlog sys → step sys = Some sys' →
  inv_line backlog sys' ∧
  (productsCompleted sys <= productsCompleted sys')%Z ∧
  started RawMaterialHandler sys ≤ started RawMaterialHandler sys' ∧
  (productQueue sys' = productQueue sys
   ∨ productQueue sys' = tail (productQueue sys)).
Proof.
  intros (Hn & Hb & Hc0 & HA & HB) Hs.
  pose proof (names_ok_step sys sys' Hn Hs) as Hn'.
  pose proof (inv_busy_step sys sys' Hb Hs) as Hb'.
  apply step_inv in Hs as (e & q0 & Heq & ->).
  set (s1 := set_simulation (mkSimulation (time e) (Heap.pq_pop Event_gt (e :: q0))) sys) in *.
  destruct (perform_account (action e) s1) as (dc & k & j & Hc & Hu & Hst & Hq & Hbal & Hpq).
  { exact Hn. }
  { intros self p d Ha. specialize (Hb self).
    rewrite Heq, count_cons, Ha in Hb. simpl in Hb.
    rewrite decide_True in Hb by reflexivity.
    change (machine self s1) with (machine self sys).
    destruct (isBusy (machine self sys)); [reflexivity | lia]. }
  assert (Hu1 : units s1 = count is_machine_event q0).
  { unfold s1, units. simpl. apply count_pop. }
  assert (Hu0 : units sys = is_machine_event (action e) + count is_machine_event q0).
  { unfold units. rewrite Heq. apply count_cons. }
  change (productsCompleted s1) with (productsCompleted sys) in Hc.
  change (started RawMaterialHandler s1) with (started RawMaterialHandler sys) in Hst.
  change (productQueue s1) with (productQueue sys) in Hq, Hpq.
  split; [|split; [lia|split; [lia|exact Hpq]]].
  split; [exact Hn'|]. split; [exact Hb'|].
  unfold inv_conservation. rewrite Hc, Hu, Hst, Hu1. lia.
Qed.

Lemma inv_line_new d c gens :
  inv_line 200 (run_entry (ManufacturingSystem_new d c gens)).
Proof.
  split; [|split].
  - intros id. destruct id; reflexivity.
  - intros id. destruct id; vm_compute; lia.
  - unfold inv_conservation.
    change (units (run_entry (ManufacturingSystem_new d c gens))) with 0.
    change (started RawMaterialHandler (run_entry (ManufacturingSystem_new d c gens)))
      with 0.
    change (length (productQueue (run_entry (ManufacturingSystem_new d c gens))))
      with 200.
    simpl. lia.
Qed.

Lemma inv_line_reaches d c gens sys :
  reaches (run_entry (ManufacturingSystem_new d c gens)) sys → inv_line 200 sys.
Proof.
  apply reaches_invariant; [apply inv_line_new|].
  intros s s' Hi Hs. apply (inv_line_step 200 s s' Hi Hs).
Qed.
End ConservationFacts.

(** C7: in every state of a run the units completed are at most the units
    the first machine has started, these are at most the units taken from
    the backlog, and these are at most the 200 units of the original
    backlog; an iteration of the loop never lowers [productsCompleted], and
    leaves the backlog as it is or removes its first unit. *)
Theorem C7_conservation (d c : Z) (gens : MachineId → nat → Q)
    (sys : ManufacturingSystem) :
  let sys0 := ManufacturingSystem_new d c gens in
  let backlog := length (productQueue sys0) in
  reaches (run_entry sys0) sys →
  ((0 <= productsCompleted sys)%Z ∧
   (productsCompleted sys <= Z.of_nat (started RawMaterialHandler sys))%Z ∧
   started RawMaterialHandler sys ≤ pulled backlog sys ∧
   pulled backlog sys ≤ backlog) ∧
  ∀ sys', step sys = Some sys' →
    (productsCompleted sys <= productsCompleted sys')%Z ∧
    (productQueue sys' = productQueue sys
     ∨ productQueue sys' = tail (productQueue sys)) ∧
    length (productQueue sys') ≤ length (productQueue sys).
Proof.
  intros sys0 backlog Hr.
  pose proof (inv_line_reaches d c gens sys Hr) as Hinv.
  change backlog with 200. split.
  - destruct Hinv as (_ & _ & Hc0 & HA & HB). unfold pulled. lia.
  - intros sys' Hs. destruct (inv_line_step 200 sys sys' Hinv Hs) as (_ & Hc & _ & Hpq).
    split; [exact Hc|]. split; [exact Hpq|].
    destruct Hpq as [->| ->]; [lia|]. destruct (productQueue sys); simpl; lia.
Qed.

Lemma C7_conservation_witness :
  let sys := ManufacturingSystem_run 40 (ManufacturingSystem_new 30 2 never_breaks) in
  (0 <= productsCompleted sys)%Z ∧
  (productsCompleted sys <= Z.of_nat (started RawMaterialHandler sys))%Z ∧
  started RawMaterialHandler sys ≤ pulled 200 sys ∧
  pulled 200 sys ≤ 200.
Proof.
  intros sys.
  apply (proj1 (C7_conservation 30 2 never_breaks sys
                  (simulation_run_reaches 40 _))).
Defined.


(** ** Termination of the loop *)

Section TerminationFacts.
Implicit Types (sys : ManufacturingSystem) (id : MachineId).

Lemma event_weight_mono l l' a : l' ≤ l → event_weight l' a ≤ event_weight l a.
Proof. intros H. destruct a; simpl; lia. Qed.

Lemma queue_weight_mono l l' q : l' ≤ l → queue_weight l' q ≤ queue_weight l q.
Proof.
  intros H. unfold queue_weight. induction q as [|e q IH]; simpl; [lia|].
  pose proof (event_weight_mono l l' (action e) H). lia.
Qed.

Lemma queue_weight_push l e q :
  queue_weight l (Heap.pq_push Event_gt e q)
  = event_weight l (action e) + queue_weight l q.
Proof. unfold queue_weight. rewrite HeapFacts.pq_push_perm. reflexivity. Qed.

Lemma queue_weight_pop l e q :
  queue_weight l (Heap.pq_pop Event_gt (e :: q)) = queue_weight l q.
Proof. unfold queue_weight. rewrite HeapFacts.pq_pop_perm. reflexivity. Qed.

Lemma idle_machines_accepting id sys sim out :
  isBusy (machine id sys) = false →
  idle_machines (set_cout out (set_simulation sim
                   (set_machine id (accepting (machine id sys)) sys))) + 1
  = idle_machines sys.
Proof.
  intros H. unfold idle_machines, idle_weight.
  destruct id; simpl in *; rewrite H; lia.
Qed.

Lemma idle_machines_finishProcessing self p sys :
  idle_machines (finishProcessing self p sys) ≤ idle_machines sys + 1.
Proof.
  unfold idle_machines, idle_weight.
  destruct self; simpl; destruct (isBusy _); lia.
Qed.

(** A call of [startProcessing] on machine [id] costs less than an event
    of that machine weighs. *)
Lemma call_potential id p d sys :
  potential (call_startProcessing id p d sys) + 1 ≤ potential sys + stage_weight id.
Proof.
  destruct (call_effect id p d sys) as [->|(Hidle & t & a & out & Ha & _ & ->)].
  - destruct id; simpl; lia.
  - pose proof (idle_machines_accepting id sys
                  (scheduleEvent t a (simulation sys)) (cout sys ++ out) Hidle) as Hi.
    unfold potential in *.
    change (shifts_left (set_cout _ _)) with (shifts_left sys).
    change (eventQueue (simulation (set_cout _ _)))
      with (Heap.pq_push Event_gt (mkEvent t a) (eventQueue (simulation sys))).
    change (productQueue (set_cout _ _)) with (productQueue sys).
    rewrite queue_weight_push. simpl.
    assert (event_weight (shifts_left sys) a = stage_weight id)
      by (destruct Ha as [->| ->]; reflexivity).
    lia.
Qed.

Lemma startProduction_potential sys :
  potential (startProduction sys) ≤ potential sys.
Proof.
  unfold startProduction. destruct (productQueue sys) as [|x rest] eqn:Hq; [lia|].
  pose proof (call_potential RawMaterialHandler x (shiftEndTime sys)
                (set_productQueue rest sys)) as H.
  assert (potential (set_productQueue rest sys) + 6 = potential sys).
  { unfold potential. simpl. rewrite Hq. simpl. unfold idle_machines, shifts_left.
    simpl. lia. }
  simpl in *. lia.
Qed.

Lemma perform_potential a sys :
  potential (perform a sys) + 1 ≤ potential sys + event_weight (shifts_left sys) a.
Proof.
  destruct a as [| |self p d|self p].
  - change (perform StartShiftAction sys) with (startShift sys). unfold startShift.
    match goal with |- context [startProduction ?s] => set (s2 := s) end.
    pose proof (startProduction_potential s2) as H.
    assert (potential s2 + 1
            ≤ potential sys + event_weight (shifts_left sys) StartShiftAction);
      [|lia].
    unfold potential.
    change (eventQueue (simulation s2))
      with (Heap.pq_push Event_gt
              (mkEvent (now sys + inject_Z (shiftDuration sys)) EndShiftAction)
              (eventQueue (simulation sys))).
    change (idle_machines s2) with (idle_machines sys).
    change (productQueue s2) with (productQueue sys).
    rewrite queue_weight_push.
    assert (Hl : shifts_left s2 = shifts_left sys - 1).
    { unfold shifts_left, s2. simpl. lia. }
    pose proof (queue_weight_mono (shifts_left sys) (shifts_left s2)
                  (eventQueue (simulation sys)) ltac:(lia)).
    simpl. lia.
  - change (perform EndShiftAction sys) with (endShift sys). unfold endShift.
    set (s1 := print (ShiftEnded (currentShift sys) (now sys)) sys).
    change (currentShift s1) with (currentShift sys).
    change (shiftCount s1) with (shiftCount sys).
    destruct (currentShift sys <? shiftCount sys)%Z eqn:Hlt.
    + apply Z.ltb_lt in Hlt. unfold potential.
      change (eventQueue (simulation (set_simulation _ s1)))
        with (Heap.pq_push Event_gt (mkEvent (now sys) StartShiftAction)
                (eventQueue (simulation sys))).
      change (shifts_left (set_simulation _ s1)) with (shifts_left sys).
      change (idle_machines (set_simulation _ s1)) with (idle_machines sys).
      change (productQueue (set_simulation _ s1)) with (productQueue sys).
      rewrite queue_weight_push.
      assert (1 ≤ shifts_left sys) by (unfold shifts_left; lia).
      cbn [event_weight action]. lia.
    + change (potential (printResults s1)) with (potential sys).
      cbn [event_weight]. lia.
  - apply call_potential.
  - change (perform (CompleteAction self p) sys)
      with (onProcessComplete self p (finishProcessing self p sys)).
    set (s1 := finishProcessing self p sys).
    assert (H1 : potential s1 ≤ potential sys + 1).
    { pose proof (idle_machines_finishProcessing self p sys). unfold potential.
      change (shifts_left s1) with (shifts_left sys).
      change (eventQueue (simulation s1)) with (eventQueue (simulation sys)).
      change (productQueue s1) with (productQueue sys). fold s1 in H. lia. }
    destruct self; cbn [onProcessComplete event_weight stage_weight];
      try (unfold startMachining, startAssembly, startQualityControl, startPackaging;
           match goal with |- context [call_startProcessing ?i ?p ?d ?s] =>
             pose proof (call_potential i p d s) as H2 end;
           cbn [stage_weight] in H2; lia).
    unfold finishProduct.
    match goal with |- context [startProduction ?s] => set (s2 := s) end.
    assert (H2 : potential s2 = potential s1) by reflexivity.
    pose proof (startProduction_potential s2).
    destruct (Qltb _ _); lia.
Qed.

(** Every iteration of the loop lowers the potential. *)
Lemma step_potential sys sys' :
  step sys = Some sys' → potential sys' < potential sys.
Proof.
  intros Hs. apply step_inv in Hs as (e & q0 & Heq & ->).
  set (s1 := set_simulation (mkSimulation (time e) (Heap.pq_pop Event_gt (e :: q0))) sys).
  pose proof (perform_potential (action e) s1) as H.
  assert (potential s1 + event_weight (shifts_left sys) (action e) = potential sys).
  { unfold potential.
    change (shifts_left s1) with (shifts_left sys).
    change (eventQueue (simulation s1)) with (Heap.pq_pop Event_gt (e :: q0)).
    change (idle_machines s1) with (idle_machines sys).
    change (productQueue s1) with (productQueue sys).
    rewrite queue_weight_pop, Heq. unfold queue_weight. simpl. lia. }
  change (shifts_left s1) with (shifts_left sys) in H. lia.
Qed.

(** The loop stops: [potential sys] iterations empty the queue. *)
Lemma simulation_run_terminates n sys :
  potential sys ≤ n →
  step (simulation_run n sys) = None ∧
  ∀ m, n ≤ m → simulation_run m sys = simulation_run n sys.
Proof.
  revert sys. induction n as [|n IH]; intros sys Hn.
  - assert (Hs : step sys = None).
    { destruct (step sys) as [sys'|] eqn:Hs; [|reflexivity].
      apply step_potential in Hs. lia. }
    split; [exact Hs|]. intros [|m] _; [reflexivity|].
    rewrite simulation_run_S, Hs. reflexivity.
  - rewrite simulation_run_S. destruct (step sys) as [sys'|] eqn:Hs.
    + apply step_potential in Hs as Hlt.
      destruct (IH sys' ltac:(lia)) as [Hstop Hstable].
      split; [exact Hstop|]. intros [|m] Hm; [lia|].
      rewrite simulation_run_S, Hs. apply Hstable. lia.
    + split; [exact Hs|]. intros [|m] _; [reflexivity|].
      rewrite simulation_run_S, Hs. reflexivity.
Qed.
End TerminationFacts.


(** ** Runs without breakdowns *)

Section DeterminismFacts.
Implicit Types (sys : ManufacturingSystem) (id : MachineId) (m : Machine).

Lemma never_breaks_down_no_sample m :
  never_breaks_down m → ¬ (generator m 0 < breakdownProbability m)%Q.
Proof. intros [Hbp Hg] Hlt. specialize (Hg 0). rewrite Hbp in Hlt. lra. Qed.

Lemma never_breaks_down_erase m :
  never_breaks_down m → never_breaks_down (erase_generator m).
Proof. intros [Hbp _]. split; [exact Hbp|]. intros n. apply Qle_refl. Qed.

Lemma never_breaks_down_accepting m :
  never_breaks_down m → never_breaks_down (accepting m).
Proof. intros [Hbp Hg]. split; [exact Hbp|]. intros n. apply (Hg (S n)). Qed.

(** Without a breakdown [startProcessing] does not depend on the samples. *)
Lemma startProcessing_erase self p d m sim out :
  never_breaks_down m →
  startProcessing self p d (erase_generator m) sim out
  = let '(m', sim', out') := startProcessing self p d m sim out in
    (erase_generator m', sim', out').
Proof.
  intros Hm. destruct (rejects_dec p d m sim) as [Hr|Hacc].
  - rewrite (startProcessing_rejected self p d m) by exact Hr.
    apply startProcessing_rejected. exact Hr.
  - rewrite (startProcessing_accepted self p d m)
      by (try apply never_breaks_down_no_sample; assumption).
    rewrite (startProcessing_accepted self p d (erase_generator m)).
    + reflexivity.
    + exact Hacc.
    + apply never_breaks_down_no_sample, never_breaks_down_erase, Hm.
Qed.

Lemma machine_erase id sys :
  machine id (erase_generators sys) = erase_generator (machine id sys).
Proof. destruct id; reflexivity. Qed.

Lemma call_erase id p d sys :
  no_breakdown sys →
  erase_generators (call_startProcessing id p d sys)
  = call_startProcessing id p d (erase_generators sys).
Proof.
  intros Hn. unfold call_startProcessing.
  rewrite machine_erase.
  change (simulation (erase_generators sys)) with (simulation sys).
  change (cout (erase_generators sys)) with (cout sys).
  rewrite startProcessing_erase by apply Hn.
  destruct (startProcessing id p d (machine id sys) (simulation sys) (cout sys))
    as [[m' sim'] out'].
  destruct id; reflexivity.
Qed.

Lemma no_breakdown_call id p d sys :
  no_breakdown sys → no_breakdown (call_startProcessing id p d sys).
Proof.
  intros Hn. destruct (call_effect id p d sys)
    as [->|(_ & t & a & out & _ & _ & ->)]; [exact Hn|].
  intros id'. rewrite machine_after_call.
  case_decide; [apply never_breaks_down_accepting|]; apply Hn.
Qed.

Lemma startProduction_erase sys :
  no_breakdown sys →
  erase_generators (startProduction sys) = startProduction (erase_generators sys).
Proof.
  intros Hn. unfold startProduction.
  change (productQueue (erase_generators sys)) with (productQueue sys).
  destruct (productQueue sys) as [|x rest]; [reflexivity|].
  apply (call_erase RawMaterialHandler x (shiftEndTime sys) (set_productQueue rest sys)).
  exact Hn.
Qed.

Lemma no_breakdown_startProduction sys :
  no_breakdown sys → no_breakdown (startProduction sys).
Proof.
  intros Hn. unfold startProduction. destruct (productQueue sys); [exact Hn|].
  apply no_breakdown_call. exact Hn.
Qed.

Lemma no_breakdown_finishProcessing self p sys :
  no_breakdown sys → no_breakdown (finishProcessing self p sys).
Proof.
  intros Hn id. rewrite machine_finishProcessing. case_decide; apply Hn.
Qed.

Lemma perform_erase a sys :
  no_breakdown sys →
  erase_generators (perform a sys) = perform a (erase_generators sys).
Proof.
  intros Hn. destruct a as [| |self p d|self p].
  - apply (startProduction_erase
             (set_simulation
                (scheduleEvent (now sys + inject_Z (shiftDuration sys)) EndShiftAction
                   (simulation sys))
                (print (ShiftStarted (currentShift sys + 1) (now sys))
                   (set_shiftEndTime (now sys + inject_Z (shiftDuration sys))
                      (set_currentShift (currentShift sys + 1) sys))))).
    exact Hn.
  - change (perform EndShiftAction sys) with (endShift sys).
    change (perform EndShiftAction (erase_generators sys))
      with (endShift (erase_generators sys)).
    unfold endShift. simpl. destruct (_ <? _)%Z; reflexivity.
  - apply call_erase, Hn.
  - change (perform (CompleteAction self p) sys)
      with (onProcessComplete self p (finishProcessing self p sys)).
    change (perform (CompleteAction self p) (erase_generators sys))
      with (onProcessComplete self p (finishProcessing self p (erase_generators sys))).
    replace (finishProcessing self p (erase_generators sys))
      with (erase_generators (finishProcessing self p sys))
      by (destruct self; reflexivity).
    pose proof (no_breakdown_finishProcessing self p sys Hn) as Hn1.
    revert Hn1. generalize (finishProcessing self p sys). intros s1 Hn1.
    destruct self; try (apply call_erase, Hn1).
    cbn [onProcessComplete]. unfold finishProduct.
    match goal with |- context [startProduction (print ?o (set_productsCompleted ?n s1))] =>
      set (s2 := print o (set_productsCompleted n s1)) end.
    change (Qltb (now (print _ (set_productsCompleted _ (erase_generators s1))))
              (shiftEndTime (print _ (set_productsCompleted _ (erase_generators s1)))))
      with (Qltb (now s2) (shiftEndTime s2)).
    destruct (Qltb (now s2) (shiftEndTime s2)); [|reflexivity].
    apply (startProduction_erase s2). exact Hn1.
Qed.

Lemma no_breakdown_perform a sys : no_breakdown sys → no_breakdown (perform a sys).
Proof.
  intros Hn. destruct a as [| |self p d|self p].
  - change (perform StartShiftAction sys) with (startShift sys). unfold startShift.
    apply no_breakdown_startProduction. exact Hn.
  - change (perform EndShiftAction sys) with (endShift sys). unfold endShift.
    destruct (_ <? _)%Z; exact Hn.
  - apply no_breakdown_call, Hn.
  - change (perform (CompleteAction self p) sys)
      with (onProcessComplete self p (finishProcessing self p sys)).
    pose proof (no_breakdown_finishProcessing self p sys Hn) as Hn1.
    destruct self; try (apply no_breakdown_call, Hn1).
    cbn [onProcessComplete]. unfold finishProduct.
    destruct (Qltb _ _); [apply no_breakdown_startProduction|]; exact Hn1.
Qed.

Lemma step_erase sys :
  no_breakdown sys →
  step (erase_generators sys) = erase_generators <$> step sys.
Proof.
  intros Hn. unfold step, run_step.
  change (eventQueue (simulation (erase_generators sys)))
    with (eventQueue (simulation sys)).
  destruct (Heap.pq_top (eventQueue (simulation sys))) as [e|]; [|reflexivity].
  simpl. f_equal. symmetry.
  apply (perform_erase (action e)
           (set_simulation
              (mkSimulation (time e) (Heap.pq_pop Event_gt (eventQueue (simulation sys))))
              sys)).
  exact Hn.
Qed.

Lemma no_breakdown_step sys sys' :
  no_breakdown sys → step sys = Some sys' → no_breakdown sys'.
Proof.
  intros Hn Hs. apply step_inv in Hs as (e & q0 & _ & ->).
  apply no_breakdown_perform. exact Hn.
Qed.

(** The loop does not depend on the samples either. *)
Lemma simulation_run_erase n sys :
  no_breakdown sys →
  simulation_run n (erase_generators sys)
  = erase_generators (simulation_run n sys).
Proof.
  revert sys. induction n as [|n IH]; intros sys Hn; [reflexivity|].
  rewrite !simulation_run_S, step_erase by exact Hn.
  destruct (step sys) as [sys'|] eqn:Hs; [|reflexivity].
  simpl. apply IH. eapply no_breakdown_step; eassumption.
Qed.

Lemma run_entry_erase sys :
  run_entry (erase_generators sys) = erase_generators (run_entry sys).
Proof. reflexivity. Qed.

Lemma potential_erase sys : potential (erase_generators sys) = potential sys.
Proof. reflexivity. Qed.
End DeterminismFacts.

(** C8: two systems that differ at most in the samples their machines will
    draw (same backlog, same [shiftDuration] and [shiftCount], same
    durations), with breakdown probability 0 for every machine: both runs
    end, the queue empty, within the same number of iterations, with the
    same current time and the same [productsCompleted] (and the same
    output). *)
Theorem C8_determinism_without_breakdowns (sys1 sys2 : ManufacturingSystem) :
  erase_generators sys1 = erase_generators sys2 →
  no_breakdown sys1 → no_breakdown sys2 →
  let n := potential (run_entry sys1) in
  let end1 := ManufacturingSystem_run n sys1 in
  let end2 := ManufacturingSystem_run n sys2 in
  (eventQueue (simulation end1) = [] ∧ eventQueue (simulation end2) = []) ∧
  (∀ k, n ≤ k → ManufacturingSystem_run k sys1 = end1
                ∧ ManufacturingSystem_run k sys2 = end2) ∧
  now end1 = now end2 ∧
  productsCompleted end1 = productsCompleted end2 ∧
  cout end1 = cout end2.
Proof.
  intros Heq Hn1 Hn2 n end1 end2.
  assert (Hpot : potential (run_entry sys2) = n).
  { unfold n. rewrite <- (potential_erase (run_entry sys1)),
      <- (potential_erase (run_entry sys2)), <- !run_entry_erase, Heq. reflexivity. }
  destruct (simulation_run_terminates n (run_entry sys1) (le_n _)) as [Hstop1 Hst1].
  destruct (simulation_run_terminates n (run_entry sys2) ltac:(lia)) as [Hstop2 Hst2].
  assert (Hends : erase_generators end1 = erase_generators end2).
  { unfold end1, end2, ManufacturingSystem_run.
    rewrite <- !simulation_run_erase, <- !run_entry_erase, Heq; [reflexivity|..].
    - intros id. apply (Hn2 id).
    - intros id. apply (Hn1 id). }
  split; [split; apply step_None; assumption|]. split.
  - intros k Hk. split; [apply Hst1 | apply Hst2]; exact Hk.
  - split; [|split].
    + apply (f_equal now) in Hends. exact Hends.
    + apply (f_equal productsCompleted) in Hends. exact Hends.
    + apply (f_equal cout) in Hends. exact Hends.
Qed.

Lemma C8_determinism_without_breakdowns_witness :
  let sys1 := with_breakdownProbability 0 (ManufacturingSystem_new 30 2 never_breaks) in
  let sys2 := with_breakdownProbability 0 (ManufacturingSystem_new 30 2 other_samples) in
  let n := potential (run_entry sys1) in
  now (ManufacturingSystem_run n sys1) = now (ManufacturingSystem_run n sys2) ∧
  productsCompleted (ManufacturingSystem_run n sys1)
  = productsCompleted (ManufacturingSystem_run n sys2).
Proof.
  intros sys1 sys2 n.
  destruct (C8_determinism_without_breakdowns sys1 sys2) as (_ & _ & Ht & Hc & _).
  - reflexivity.
  - intros id. split; [destruct id; reflexivity|].
    intros k. destruct id; discriminate.
  - intros id. split; [destruct id; reflexivity|].
    intros k. destruct id, k; discriminate.
  - split; [exact Ht | exact Hc].
Defined.

(** The two runs of the witness, evaluated: two units are completed and the
    run ends at time 60, whatever the samples. *)
Example runs_without_breakdowns :
  let sys1 := with_breakdownProbability 0 (ManufacturingSystem_new 30 2 never_breaks) in
  let sys2 := with_breakdownProbability 0 (ManufacturingSystem_new 30 2 other_samples) in
  let end1 := ManufacturingSystem_run 1300 sys1 in
  let end2 := ManufacturingSystem_run 1300 sys2 in
  productsCompleted end1 = 2%Z ∧ productsCompleted end2 = 2%Z ∧
  (now end1 == 60)%Q ∧ (now end2 == 60)%Q.
Proof. vm_compute. repeat split. Qed.

(** With the breakdown probabilities of the source the samples do matter:
    the same two sample sequences give different results. *)
Example runs_with_breakdowns_differ :
  let end1 := ManufacturingSystem_run 1300 (ManufacturingSystem_new 30 2 never_breaks) in
  let end2 := ManufacturingSystem_run 1300 (ManufacturingSystem_new 30 2 other_samples) in
  productsCompleted end1 = 2%Z ∧ productsCompleted end2 = 0%Z.
Proof. vm_compute. split; reflexivity. Qed.


(** * Further properties of the code *)

(** ** The loop always ends *)

(** X1: [ManufacturingSystem::run] terminates whatever the shift duration,
    the number of shifts and the samples: the loop of [Simulation::run]
    empties the queue within [potential sys] iterations from any state
    [sys], that is within 2 * max(shiftCount, 1) + 1205 iterations from the
    state the constructor builds, and further iterations change nothing. *)
Theorem X1_run_terminates (d c : Z) (gens : MachineId → nat → Q) :
  (∀ sys n, potential sys ≤ n →
     eventQueue (simulation (simulation_run n sys)) = [] ∧
     ∀ m, n ≤ m → simulation_run m sys = simulation_run n sys) ∧
  potential (run_entry (ManufacturingSystem_new d c gens))
  = 2 * Nat.max (Z.to_nat c) 1 + 1205.
Proof.
  split.
  - intros sys n Hn.
    destruct (simulation_run_terminates n sys Hn) as [Hstop Hstable].
    split; [apply step_None, Hstop | exact Hstable].
  - unfold potential.
    change (idle_machines (run_entry (ManufacturingSystem_new d c gens))) with 5.
    change (length (productQueue (run_entry (ManufacturingSystem_new d c gens))))
      with 200.
    change (eventQueue (simulation (run_entry (ManufacturingSystem_new d c gens))))
      with (Heap.pq_push Event_gt (mkEvent 0 StartShiftAction) []).
    rewrite queue_weight_push.
    change (shifts_left (run_entry (ManufacturingSystem_new d c gens)))
      with (Z.to_nat (c - 0)).
    rewrite Z.sub_0_r. cbn [event_weight action queue_weight sum_list_with]. lia.
Qed.

Lemma X1_run_terminates_witness :
  eventQueue (simulation
    (ManufacturingSystem_run 1209 (ManufacturingSystem_new 8 2 never_breaks))) = [].
Proof.
  apply (proj1 (X1_run_terminates 8 2 never_breaks)
           (run_entry (ManufacturingSystem_new 8 2 never_breaks)) 1209).
  rewrite (proj2 (X1_run_terminates 8 2 never_breaks)). simpl. lia.
Defined.


(** ** Occupancy of the machines *)

Section OccupancyFacts.
Implicit Types (sys : ManufacturingSystem) (id : MachineId)
  (q : list (Event Action)).

(** An event of a machine is an event of exactly one of the five. *)
Lemma is_machine_event_split a :
  is_machine_event a
  = event_of RawMaterialHandler a + event_of Machining a + event_of Assembly a
    + event_of QualityControl a + event_of Packaging a.
Proof. destruct a as [| |self p d|self p]; try reflexivity; destruct self; reflexivity. Qed.

Lemma count_machine_events_split q :
  count is_machine_event q
  = count (event_of RawMaterialHandler) q + count (event_of Machining) q
    + count (event_of Assembly) q + count (event_of QualityControl) q
    + count (event_of Packaging) q.
Proof.
  induction q as [|e q IH]; [reflexivity|].
  rewrite !count_cons, IH, is_machine_event_split. lia.
Qed.

Lemma is_complete_of_le id a : is_complete_of id a ≤ event_of id a.
Proof. destruct a; simpl; lia. Qed.

Lemma count_complete_of_le id q :
  count (is_complete_of id) q ≤ count (event_of id) q.
Proof.
  induction q as [|e q IH]; [reflexivity|].
  rewrite !count_cons. pose proof (is_complete_of_le id (action e)). lia.
Qed.

(** A call of [startProcessing], on any machine, leaves a machine that is
    out of order as it is. *)
Lemma out_of_order_call id id' p d sys :
  out_of_order id sys → out_of_order id (call_startProcessing id' p d sys).
Proof.
  intros [Hb Hc]. destruct (call_effect id' p d sys)
    as [->|(Hidle & t & a & out & Ha & _ & ->)]; [split; assumption|].
  assert (Hne : id' ≠ id) by (intros ->; congruence).
  split.
  - rewrite machine_after_call, decide_False by exact Hne. exact Hb.
  - change (count (is_complete_of id)
              (Heap.pq_push Event_gt (mkEvent t a) (eventQueue (simulation sys))) = 0).
    rewrite count_push, Hc.
    destruct Ha as [->| ->]; simpl; [reflexivity|].
    rewrite decide_False by exact Hne. reflexivity.
Qed.

Lemma out_of_order_startProduction id sys :
  out_of_order id sys → out_of_order id (startProduction sys).
Proof.
  intros H. unfold startProduction. destruct (productQueue sys); [exact H|].
  apply out_of_order_call. exact H.
Qed.

Lemma out_of_order_perform id a sys :
  out_of_order id sys → is_complete_of id a = 0 →
  out_of_order id (perform a sys).
Proof.
  intros H Ha. destruct a as [| |self p d|self p].
  - change (perform StartShiftAction sys) with (startShift sys). unfold startShift.
    apply out_of_order_startProduction. destruct H as [Hb Hc]. split; [exact Hb|].
    change (count (is_complete_of id)
              (Heap.pq_push Event_gt
                 (mkEvent (now sys + inject_Z (shiftDuration sys)) EndShiftAction)
                 (eventQueue (simulation sys))) = 0).
    rewrite count_push, Hc. reflexivity.
  - change (perform EndShiftAction sys) with (endShift sys). unfold endShift.
    destruct (_ <? _)%Z; [|exact H]. destruct H as [Hb Hc]. split; [exact Hb|].
    change (count (is_complete_of id)
              (Heap.pq_push Event_gt (mkEvent (now sys) StartShiftAction)
                 (eventQueue (simulation sys))) = 0).
    rewrite count_push, Hc. reflexivity.
  - apply out_of_order_call, H.
  - assert (Hne : self ≠ id).
    { intros ->. simpl in Ha. rewrite decide_True in Ha by reflexivity. discriminate. }
    assert (H1 : out_of_order id (finishProcessing self p sys)).
    { destruct H as [Hb Hc]. split; [|exact Hc].
      rewrite machine_finishProcessing, decide_False by exact Hne. exact Hb. }
    change (perform (CompleteAction self p) sys)
      with (onProcessComplete self p (finishProcessing self p sys)).
    destruct self; try (apply out_of_order_call, H1).
    cbn [onProcessComplete]. unfold finishProduct.
    destruct (Qltb _ _); [apply out_of_order_startProduction|]; exact H1.
Qed.

Lemma out_of_order_step id sys sys' :
  out_of_order id sys → step sys = Some sys' → out_of_order id sys'.
Proof.
  intros [Hb Hc] Hs. apply step_inv in Hs as (e & q0 & Heq & ->).
  rewrite Heq, count_cons in Hc. apply out_of_order_perform; [|lia].
  split; [exact Hb|].
  change (count (is_complete_of id) (Heap.pq_pop Event_gt (e :: q0)) = 0).
  rewrite count_pop. lia.
Qed.
End OccupancyFacts.

(** X2: in every state of a run each machine has at most one pending event
    (retry or completion), a machine that [isAvailable] reports free has
    none, and so at most five units are in the line. *)
Theorem X2_one_unit_per_machine (d c : Z) (gens : MachineId → nat → Q)
    (sys : ManufacturingSystem) :
  reaches (run_entry (ManufacturingSystem_new d c gens)) sys →
  (∀ id, count (event_of id) (eventQueue (simulation sys)) ≤ 1 ∧
         (isAvailable (machine id sys) = true →
          count (event_of id) (eventQueue (simulation sys)) = 0)) ∧
  units sys ≤ 5.
Proof.
  intros Hr. pose proof (inv_busy_reaches d c gens sys Hr) as Hb.
  assert (H1 : ∀ id, count (event_of id) (eventQueue (simulation sys)) ≤ 1).
  { intros id. specialize (Hb id). destruct (isBusy (machine id sys)); lia. }
  split.
  - intros id. split; [apply H1|]. specialize (Hb id). unfold isAvailable.
    destruct (isBusy (machine id sys)); simpl; [discriminate | intros _; lia].
  - unfold units. rewrite count_machine_events_split.
    pose proof (H1 RawMaterialHandler). pose proof (H1 Machining).
    pose proof (H1 Assembly). pose proof (H1 QualityControl).
    pose proof (H1 Packaging). lia.
Qed.

Lemma X2_one_unit_per_machine_witness :
  units (ManufacturingSystem_run 5 (ManufacturingSystem_new 30 2 never_breaks)) ≤ 5.
Proof.
  apply (proj2 (X2_one_unit_per_machine 30 2 never_breaks _
                  (simulation_run_reaches 5 _))).
Defined.

(** X3: a breakdown is permanent.  In a run, a machine that accepts a unit
    and breaks down is left busy with only a retry pending; and from any
    state in which a machine is busy with no completion pending, the
    machine is still busy, and [isAvailable] false, in every later state:
    nothing but its own completion event clears [isBusy]. *)
Theorem X3_breakdown_is_permanent (id : MachineId) :
  (∀ d c gens sys p dl,
     reaches (run_entry (ManufacturingSystem_new d c gens)) sys →
     ¬ rejects p dl (machine id sys) (simulation sys) →
     (generator (machine id sys) 0 < breakdownProbability (machine id sys))%Q →
     out_of_order id (call_startProcessing id p dl sys)) ∧
  (∀ sys sys',
     out_of_order id sys → reaches sys sys' →
     out_of_order id sys' ∧ isAvailable (machine id sys') = false).
Proof.
  split.
  - intros d c gens sys p dl Hr Hacc Hbrk.
    pose proof (inv_busy_reaches d c gens sys Hr id) as Hb.
    assert (Hidle : isBusy (machine id sys) = false).
    { destruct (isBusy (machine id sys)) eqn:E; [|reflexivity].
      exfalso. apply Hacc. left. exact E. }
    rewrite Hidle in Hb.
    pose proof (count_complete_of_le id (eventQueue (simulation sys))) as Hle.
    destruct (call_startProcessing_cases id p dl sys)
      as [[Hr' _]|[_ (t & a & out & Hta & ->)]]; [contradiction|].
    destruct Hta as [(_ & -> & _)|(_ & _ & Hok & _)]; [|contradiction].
    split.
    + rewrite machine_after_call, decide_True by reflexivity. reflexivity.
    + change (count (is_complete_of id)
                (Heap.pq_push Event_gt (mkEvent t (RetryAction id p dl))
                   (eventQueue (simulation sys))) = 0).
      rewrite count_push. simpl. lia.
  - intros sys sys' H Hr.
    assert (H' : out_of_order id sys').
    { induction Hr as [|s s' _ IH Hs]; [exact H|].
      eapply out_of_order_step; eassumption. }
    split; [exact H'|]. unfold isAvailable. rewrite (proj1 H'). reflexivity.
Qed.

Lemma X3_breakdown_is_permanent_witness :
  let broken := ManufacturingSystem_run 1 (ManufacturingSystem_new 30 2 breaks_once) in
  out_of_order RawMaterialHandler broken ∧
  isAvailable (machine RawMaterialHandler (simulation_run 6 broken)) = false.
Proof.
  intros broken.
  assert (H : out_of_order RawMaterialHandler broken)
    by (split; vm_compute; reflexivity).
  split; [exact H|].
  exact (proj2 (proj2 (X3_breakdown_is_permanent RawMaterialHandler) broken
                  (simulation_run 6 broken) H (simulation_run_reaches 6 broken))).
Defined.


(** ** The order of execution, for any actions *)

Section NextEventFacts.
Context {A : Type} (comp : A → A → bool).

(** Sifting a value up from a hole below the root leaves the root alone
    when the root does not compare above the value. *)
Lemma __push_heap_root fuel (a : list A) h v r :
  0 < h → h < length a → a !! 0 = Some r → comp r v = false →
  Heap.__push_heap comp fuel a h 0 v !! 0 = Some r.
Proof.
  revert a h. induction fuel as [|fuel IH]; intros a h Hh Hlen Hr Hc.
  - rewrite HeapFacts.__push_heap_0, list_lookup_insert_ne by lia. exact Hr.
  - rewrite HeapFacts.__push_heap_S.
    destruct (a !! ((h - 1) / 2)) as [p|] eqn:Hp;
      [|rewrite list_lookup_insert_ne by lia; exact Hr].
    destruct (bool_decide (0 < h) && comp p v) eqn:Hcond;
      [|rewrite list_lookup_insert_ne by lia; exact Hr].
    apply andb_true_iff in Hcond as [_ Hgt].
    pose proof (HeapFacts.parent_lt h Hh) as Hpar.
    destruct (decide ((h - 1) / 2 = 0)) as [H0|H0].
    + rewrite H0, Hr in Hp. injection Hp as <-. congruence.
    + apply IH; [lia | rewrite length_insert; lia | | exact Hc].
      rewrite list_lookup_insert_ne by lia. exact Hr.
Qed.

Lemma pq_push_keeps_top x r (c : list A) :
  comp r x = false →
  Heap.pq_top (Heap.pq_push comp x (r :: c)) = Some r.
Proof.
  intros Hc. unfold Heap.pq_top, Heap.pq_push, Heap.push_heap.
  rewrite last_snoc, length_app. simpl length.
  rewrite head_lookup.
  apply __push_heap_root; [lia | rewrite length_app; simpl; lia | reflexivity | exact Hc].
Qed.
End NextEventFacts.

(** X4: whatever the actions do, an iteration of [Simulation::run] on a
    queue in heap order takes an event whose timestamp is at most that of
    every other pending event, sets current time to it, and keeps exactly
    the other events pending, again in heap order, when it calls the
    action. *)
Theorem X4_run_takes_least_timestamp {Act World : Type}
    (sim_of : World → Simulation Act) (with_sim : Simulation Act → World → World)
    (perform : Act → World → World) (w w' : World) :
  heap_ok (eventQueue (sim_of w)) →
  run_step sim_of with_sim perform w = Some w' →
  ∃ e rest q',
    eventQueue (sim_of w) = e :: rest ∧ Forall (time_le e) rest ∧
    q' ≡ₚ rest ∧ heap_ok q' ∧
    w' = perform (action e) (with_sim (mkSimulation (time e) q') w).
Proof.
  intros Hq Hs. unfold run_step, Heap.pq_top in Hs.
  destruct (eventQueue (sim_of w)) as [|e rest] eqn:Heq; [discriminate|].
  simpl in Hs. injection Hs as <-.
  exists e, rest, (Heap.pq_pop Event_gt (e :: rest)).
  split; [reflexivity|]. split; [apply heap_ok_top, Hq|].
  split; [apply HeapFacts.pq_pop_perm|]. split; [apply heap_ok_pop, Hq|].
  reflexivity.
Qed.

Lemma X4_run_takes_least_timestamp_witness :
  let w : LogWorld := (schedule_all four_ties Simulation_new, []) in
  ∃ e rest q',
    eventQueue w.1 = e :: rest ∧ Forall (time_le e) rest ∧
    q' ≡ₚ rest ∧ heap_ok q' ∧
    log_perform 1 (log_with_sim (mkSimulation 0 (Heap.pq_pop Event_gt (eventQueue w.1))) w)
    = log_perform (action e) (log_with_sim (mkSimulation (time e) q') w).
Proof.
  intros w.
  apply (X4_run_takes_least_timestamp fst log_with_sim log_perform w).
  - apply (schedule_all_spec four_ties Simulation_new heap_ok_nil).
  - reflexivity.
Defined.

(** X5: an event scheduled for a time strictly before every pending event
    is the next one [run] takes. *)
Theorem X5_earlier_event_runs_next {Act : Type} (t : Q) (a : Act)
    (sim : Simulation Act) :
  heap_ok (eventQueue sim) →
  Forall (λ e, t < time e)%Q (eventQueue sim) →
  Heap.pq_top (eventQueue (scheduleEvent t a sim)) = Some (mkEvent t a).
Proof.
  intros Hq Hlater.
  pose proof (heap_ok_push (mkEvent t a) (eventQueue sim) Hq) as Hq'.
  pose proof (scheduleEvent_queue t a sim) as Hperm.
  change (eventQueue (scheduleEvent t a sim))
    with (Heap.pq_push Event_gt (mkEvent t a) (eventQueue sim)) in *.
  destruct (Heap.pq_push Event_gt (mkEvent t a) (eventQueue sim)) as [|e rest] eqn:Heq.
  { apply Permutation_length in Hperm. discriminate. }
  simpl. f_equal.
  assert (Hin : e ∈ mkEvent t a :: eventQueue sim)
    by (rewrite <- Hperm; apply list_elem_of_here).
  apply elem_of_cons in Hin as [->|Hin]; [reflexivity|].
  exfalso.
  assert (Hnew : mkEvent t a ∈ e :: rest)
    by (rewrite Hperm; apply list_elem_of_here).
  pose proof (proj1 (Forall_forall _ _) Hlater e Hin) as Hlt. simpl in Hlt.
  apply elem_of_cons in Hnew as [Hnew|Hnew].
  - rewrite <- Hnew in Hlt. simpl in Hlt. revert Hlt. apply Qlt_irrefl.
  - pose proof (proj1 (Forall_forall _ _) (heap_ok_top e rest Hq') _ Hnew) as Hle.
    unfold time_le in Hle. simpl in Hle. apply Qle_not_lt in Hle. contradiction.
Qed.

Lemma X5_earlier_event_runs_next_witness :
  Heap.pq_top (eventQueue (scheduleEvent (-1) 9 (schedule_all four_ties Simulation_new)))
  = Some (mkEvent (-1) 9).
Proof.
  apply X5_earlier_event_runs_next.
  - apply (schedule_all_spec four_ties Simulation_new heap_ok_nil).
  - vm_compute. repeat constructor.
Defined.

(** X6: an event scheduled for a time that is not before the timestamp of
    the event at the front of the queue never takes its place; in
    particular an event with the same timestamp as the front event runs
    after it. *)
Theorem X6_later_event_does_not_overtake {Act : Type} (t : Q) (a : Act)
    (sim : Simulation Act) (e : Event Act) :
  Heap.pq_top (eventQueue sim) = Some e → (time e <= t)%Q →
  Heap.pq_top (eventQueue (scheduleEvent t a sim)) = Some e.
Proof.
  intros Htop Hle. unfold Heap.pq_top in Htop.
  change (eventQueue (scheduleEvent t a sim))
    with (Heap.pq_push Event_gt (mkEvent t a) (eventQueue sim)).
  destruct (eventQueue sim) as [|r c]; [discriminate|]. injection Htop as ->.
  apply pq_push_keeps_top. apply Event_gt_false. exact Hle.
Qed.

Lemma X6_later_event_does_not_overtake_witness :
  Heap.pq_top (eventQueue (scheduleEvent 0 9 (schedule_all four_ties Simulation_new)))
  = Some (mkEvent 0 1).
Proof.
  apply X6_later_event_does_not_overtake.
  - reflexivity.
  - vm_compute. discriminate.
Defined.


(** ** What the line never changes, and what it loses *)

(** X7: no action changes the configuration: in every state a run can
    reach from [sys0], each machine has the name, processing and setup
    times, breakdown probability and maintenance time it has in [sys0], and
    [shiftCount] and [shiftDuration] are those of [sys0]. *)
Theorem X7_configuration_never_changes (sys0 sys : ManufacturingSystem) :
  reaches sys0 sys →
  (∀ id, same_config (machine id sys) (machine id sys0)) ∧
  shiftCount sys = shiftCount sys0 ∧ shiftDuration sys = shiftDuration sys0.
Proof.
  intros Hr. induction Hr as [|s s' _ (Hm & Hc & Hd) Hs].
  - split; [intros id; apply same_config_refl|]. split; reflexivity.
  - split.
    + intros id. eapply same_config_trans; [apply (step_config s s' id Hs)|apply Hm].
    + apply step_inv in Hs as (e & q0 & _ & ->).
      destruct (perform_frame (action e)
                  (set_simulation (mkSimulation (time e)
                     (Heap.pq_pop Event_gt (e :: q0))) s)) as (_ & -> & ->).
      split; assumption.
Qed.

Lemma X7_configuration_never_changes_witness :
  let sys0 := run_entry (ManufacturingSystem_new 30 2 breaks_once) in
  shiftCount (simulation_run 7 sys0) = shiftCount sys0.
Proof.
  intros sys0.
  exact (proj1 (proj2 (X7_configuration_never_changes sys0 (simulation_run 7 sys0)
                         (simulation_run_reaches 7 sys0)))).
Defined.

(** X8: a unit a machine rejects is lost.  When the first machine rejects
    the unit [startProduction] offers it (it is busy, or the unit cannot be
    processed before the shift end), the unit has left the backlog and
    nothing else has changed; when the next machine rejects a unit that a
    machine has just finished, the completion does no more than free the
    finishing machine and print its line.  No event is scheduled for the
    unit and it is not put back. *)
Theorem X8_rejected_unit_is_lost :
  (∀ x rest sys,
     productQueue sys = x :: rest →
     rejects x (shiftEndTime sys) (rawMaterialHandler sys) (simulation sys) →
     startProduction sys = set_productQueue rest sys) ∧
  (∀ self nxt p sys,
     successor self = Some nxt →
     rejects p (shiftEndTime sys) (machine nxt sys) (simulation sys) →
     perform (CompleteAction self p) sys = finishProcessing self p sys).
Proof.
  split.
  - intros x rest sys Hq Hr. rewrite (startProduction_cons x rest sys Hq).
    destruct (call_startProcessing_cases RawMaterialHandler x (shiftEndTime sys)
                (set_productQueue rest sys)) as [[_ H]|[Hacc _]]; [exact H|].
    exfalso. apply Hacc. exact Hr.
  - intros self nxt p sys Hnxt Hr.
    change (perform (CompleteAction self p) sys)
      with (onProcessComplete self p (finishProcessing self p sys)).
    assert (Hcall : call_startProcessing nxt p (shiftEndTime sys)
                      (finishProcessing self p sys)
                    = finishProcessing self p sys).
    { destruct (call_startProcessing_cases nxt p (shiftEndTime sys)
                  (finishProcessing self p sys)) as [[_ H]|[Hacc _]]; [exact H|].
      exfalso. apply Hacc. rewrite machine_finishProcessing.
      rewrite decide_False by (destruct self; simpl in Hnxt; congruence).
      exact Hr. }
    destruct self; simpl in Hnxt; try discriminate;
      injection Hnxt as <-; exact Hcall.
Qed.

Lemma X8_rejected_unit_is_lost_witness :
  let sys := ManufacturingSystem_run 1 (ManufacturingSystem_new 30 2 never_breaks) in
  startProduction sys = set_productQueue (tail (productQueue sys)) sys.
Proof.
  intros sys.
  apply (proj1 X8_rejected_unit_is_lost "ProductB" (tail (productQueue sys)) sys).
  - reflexivity.
  - left. reflexivity.
Defined.

(** X9: a product type that is in neither map of a machine is not refused:
    [operator[]] reads both of its times as 0.0, so an idle machine accepts
    it whenever the deadline has not passed and, without a breakdown,
    schedules its completion for the current time. *)
Theorem X9_unknown_product_takes_no_time (self : MachineId) (p : string)
    (d : Q) (m : Machine) (sim : Simulation Action) (out : list Output) :
  processTimes m !! p = None → setupTimes m !! p = None →
  isBusy m = false → (getCurrentTime sim <= d)%Q →
  ¬ (generator m 0 < breakdownProbability m)%Q →
  ∃ tc,
    startProcessing self p d m sim out
    = (accepting m, scheduleEvent tc (CompleteAction self p) sim,
       out ++ [MachineStarted (name m) p (getCurrentTime sim)]) ∧
    (tc == getCurrentTime sim)%Q.
Proof.
  intros Hp Hs Hb Hd Hok.
  assert (Hpt : subscript (processTimes m) p = 0%Q)
    by (unfold subscript; rewrite Hp; reflexivity).
  assert (Hst : subscript (setupTimes m) p = 0%Q)
    by (unfold subscript; rewrite Hs; reflexivity).
  exists (getCurrentTime sim
          + (subscript (processTimes m) p + subscript (setupTimes m) p))%Q.
  split.
  - apply startProcessing_accepted; [|exact Hok].
    intros [Hb'|Hlate]; [congruence|]. rewrite Hpt in Hlate. lra.
  - rewrite Hpt, Hst. lra.
Qed.

Lemma X9_unknown_product_takes_no_time_witness :
  let m := rawMaterialHandler (ManufacturingSystem_new 8 1 never_breaks) in
  ∃ tc,
    startProcessing RawMaterialHandler "ProductC" 8 m Simulation_new []
    = (accepting m,
       scheduleEvent tc (CompleteAction RawMaterialHandler "ProductC") Simulation_new,
       [] ++ [MachineStarted (name m) "ProductC" (getCurrentTime (@Simulation_new Action))]) ∧
    (tc == getCurrentTime (@Simulation_new Action))%Q.
Proof.
  intros m.
  apply (X9_unknown_product_takes_no_time RawMaterialHandler "ProductC" 8 m
           Simulation_new []).
  - reflexivity.
  - reflexivity.
  - reflexivity.
  - vm_compute. discriminate.
  - vm_compute. discriminate.
Defined.


(** ** What the run prints *)

Section OutputFacts.
Implicit Types (sys : ManufacturingSystem) (id : MachineId).

Lemma call_cout id p d sys :
  ∃ sl, Forall (λ o, is_start_line o = true) sl ∧
        cout (call_startProcessing id p d sys) = cout sys ++ sl.
Proof.
  destruct (call_startProcessing_cases id p d sys)
    as [[_ ->]|[_ (t & a & out & Hta & ->)]].
  - exists []. split; [constructor | rewrite app_nil_r; reflexivity].
  - exists out. split; [|reflexivity].
    destruct Hta as [(_ & _ & _ & ->)|(_ & _ & _ & ->)]; repeat constructor.
Qed.

Lemma startProduction_cout sys :
  ∃ sl, Forall (λ o, is_start_line o = true) sl ∧
        cout (startProduction sys) = cout sys ++ sl.
Proof.
  unfold startProduction. destruct (productQueue sys) as [|x rest].
  - exists []. split; [constructor | rewrite app_nil_r; reflexivity].
  - apply (call_cout RawMaterialHandler x _ (set_productQueue rest sys)).
Qed.

(** The lines an action adds to the output. *)
Lemma perform_cout a sys :
  ∃ sl, Forall (λ o, is_start_line o = true) sl ∧
        cout (perform a sys) = cout sys ++ head_lines a sys ++ sl.
Proof.
  destruct a as [| |self p d|self p].
  - change (perform StartShiftAction sys) with (startShift sys). unfold startShift.
    match goal with |- context [startProduction ?s] =>
      destruct (startProduction_cout s) as (sl & Hsl & ->) end.
    exists sl. split; [exact Hsl|]. simpl. rewrite <- app_assoc. reflexivity.
  - exists []. split; [constructor|].
    change (perform EndShiftAction sys) with (endShift sys). unfold endShift.
    simpl. destruct (_ <? _)%Z; simpl; rewrite <- ?app_assoc; reflexivity.
  - change (perform (RetryAction self p d) sys)
      with (call_startProcessing self p d sys).
    destruct (call_cout self p d sys) as (sl & Hsl & ->).
    exists sl. split; [exact Hsl | reflexivity].
  - change (perform (CompleteAction self p) sys)
      with (onProcessComplete self p (finishProcessing self p sys)).
    assert (H1 : cout (finishProcessing self p sys)
                 = cout sys ++ [MachineFinished (name (machine self sys)) p (now sys)])
      by (destruct self; reflexivity).
    destruct self; cbn [onProcessComplete head_lines];
      try (unfold startMachining, startAssembly, startQualityControl, startPackaging;
           match goal with |- context [call_startProcessing ?i ?p ?d ?s] =>
             destruct (call_cout i p d s) as (sl & Hsl & ->) end;
           exists sl; split; [exact Hsl|]; rewrite H1, <- app_assoc; reflexivity).
    unfold finishProduct.
    match goal with |- context [startProduction ?s] => set (s2 := s) end.
    assert (H2 : cout s2 = cout sys
                   ++ [MachineFinished (name (machine Packaging sys)) p (now sys);
                       ProductFinished p (now sys)]).
    { unfold s2. simpl. rewrite <- app_assoc. reflexivity. }
    destruct (Qltb _ _).
    + destruct (startProduction_cout s2) as (sl & Hsl & ->).
      exists sl. split; [exact Hsl|]. rewrite H2, <- app_assoc. reflexivity.
    + exists []. split; [constructor|]. rewrite H2, app_nil_r. reflexivity.
Qed.

(** The events an action adds to the queue. *)
Lemma perform_queue a sys :
  ∃ ml, Forall (λ e, is_machine_event (action e) = 1) ml ∧
        eventQueue (simulation (perform a sys))
        ≡ₚ ml ++ head_events a sys ++ eventQueue (simulation sys).
Proof.
  assert (Hcall : ∀ id p d s,
    ∃ ml, Forall (λ e, is_machine_event (action e) = 1) ml ∧
          eventQueue (simulation (call_startProcessing id p d s))
          ≡ₚ ml ++ eventQueue (simulation s)).
  { intros id p d s. destruct (call_queue id p d s) as [->|(t & a' & Ha & ->)].
    - exists []. split; [constructor | reflexivity].
    - exists [mkEvent t a']. split; [repeat constructor; exact Ha|].
      apply HeapFacts.pq_push_perm. }
  assert (Hprod : ∀ s,
    ∃ ml, Forall (λ e, is_machine_event (action e) = 1) ml ∧
          eventQueue (simulation (startProduction s))
          ≡ₚ ml ++ eventQueue (simulation s)).
  { intros s. unfold startProduction. destruct (productQueue s) as [|x rest].
    - exists []. split; [constructor | reflexivity].
    - apply (Hcall RawMaterialHandler x _ (set_productQueue rest s)). }
  destruct a as [| |self p d|self p].
  - change (perform StartShiftAction sys) with (startShift sys). unfold startShift.
    match goal with |- context [startProduction ?s] =>
      destruct (Hprod s) as (ml & Hml & Hp) end.
    exists ml. split; [exact Hml|]. rewrite Hp. apply Permutation_app_head.
    apply HeapFacts.pq_push_perm.
  - exists []. split; [constructor|].
    change (perform EndShiftAction sys) with (endShift sys). unfold endShift.
    simpl. destruct (_ <? _)%Z; simpl; [apply HeapFacts.pq_push_perm | reflexivity].
  - apply Hcall.
  - change (perform (CompleteAction self p) sys)
      with (onProcessComplete self p (finishProcessing self p sys)).
    cbn [head_events app].
    change (eventQueue (simulation sys))
      with (eventQueue (simulation (finishProcessing self p sys))).
    destruct self; cbn [onProcessComplete]; try apply Hcall.
    unfold finishProduct. destruct (Qltb _ _); [exact (Hprod _)|].
    exists []. split; [constructor | reflexivity].
Qed.

Lemma perform_productsCompleted a sys :
  productsCompleted (perform a sys)
  = (productsCompleted sys
     + match a with CompleteAction Packaging _ => 1 | _ => 0 end)%Z.
Proof.
  destruct a as [| |self p d|self p].
  - change (perform StartShiftAction sys) with (startShift sys). unfold startShift.
    match goal with |- context [startProduction ?s] =>
      destruct (startProduction_frame s) as (-> & _) end.
    simpl. lia.
  - change (perform EndShiftAction sys) with (endShift sys). unfold endShift.
    destruct (_ <? _)%Z; simpl; lia.
  - change (perform (RetryAction self p d) sys) with (call_startProcessing self p d sys).
    destruct (call_startProcessing_frame self p d sys) as (-> & _). lia.
  - change (perform (CompleteAction self p) sys)
      with (onProcessComplete self p (finishProcessing self p sys)).
    destruct self; cbn [onProcessComplete];
      try (unfold startMachining, startAssembly, startQualityControl, startPackaging;
           match goal with |- context [call_startProcessing ?i ?p ?d ?s] =>
             destruct (call_startProcessing_frame i p d s) as (-> & _) end;
           simpl; lia).
    unfold finishProduct. destruct (Qltb _ _); [|reflexivity].
    match goal with |- context [startProduction ?s] =>
      destruct (startProduction_frame s) as (-> & _) end.
    reflexivity.
Qed.

Lemma start_lines_sum (f : Output → nat) sl :
  (∀ o, is_start_line o = true → f o = 0) →
  Forall (λ o, is_start_line o = true) sl → sum_list_with f sl = 0.
Proof.
  intros Hf Hsl. induction Hsl as [|o sl Ho _ IH]; [reflexivity|].
  simpl. rewrite (Hf o Ho), IH. reflexivity.
Qed.
End OutputFacts.

(** X10: [productsCompleted] always equals the number of "product finished"
    lines printed so far: the counter and the output move together. *)
Theorem X10_completed_matches_output (d c : Z) (gens : MachineId → nat → Q)
    (sys : ManufacturingSystem) :
  reaches (run_entry (ManufacturingSystem_new d c gens)) sys →
  productsCompleted sys = Z.of_nat (products_printed sys).
Proof.
  revert sys. apply reaches_invariant; [reflexivity|].
  intros s s' IH Hs. apply step_inv in Hs as (e & q0 & _ & ->).
  set (s1 := set_simulation (mkSimulation (time e) (Heap.pq_pop Event_gt (e :: q0))) s).
  rewrite perform_productsCompleted. unfold products_printed.
  destruct (perform_cout (action e) s1) as (sl & Hsl & ->).
  rewrite !sum_list_with_app.
  rewrite (start_lines_sum is_product_finished sl)
    by (try exact Hsl; intros [] Ho; (reflexivity || discriminate)).
  change (productsCompleted s1) with (productsCompleted s).
  change (cout s1) with (cout s). unfold products_printed in IH. rewrite IH.
  destruct (action e) as [| |self p dl|self p]; simpl.
  - lia.
  - destruct (_ <? _)%Z; simpl; lia.
  - lia.
  - destruct self; simpl; lia.
Qed.

Lemma X10_completed_matches_output_witness :
  let sys := ManufacturingSystem_run 30 (ManufacturingSystem_new 30 2 never_breaks) in
  productsCompleted sys = Z.of_nat (products_printed sys).
Proof.
  intros sys.
  exact (X10_completed_matches_output 30 2 never_breaks sys
           (simulation_run_reaches 30 _)).
Defined.


(** ** The timetable of the shifts *)

Section TimetableFacts.
Implicit Types (sys : ManufacturingSystem) (q : list (Event Action)).

Lemma count_zero_Forall f q :
  count f q = 0 → Forall (λ e, f (action e) = 0) q.
Proof.
  induction q as [|e q IH]; intros H; [constructor|].
  rewrite count_cons in H. constructor; [lia | apply IH; lia].
Qed.

Lemma no_shift_event_pending (P : Event Action → Prop) q :
  count is_StartShift q = 0 → count is_EndShift q = 0 →
  Forall (λ e, is_shift_event (action e) = 1 → P e) q.
Proof.
  intros HS HE. apply count_zero_Forall in HS, HE.
  apply Forall_forall. intros e He Hshift.
  pose proof (proj1 (Forall_forall _ _) HS e He) as H1.
  pose proof (proj1 (Forall_forall _ _) HE e He) as H2.
  cbv beta in H1, H2. unfold is_shift_event in Hshift. lia.
Qed.

Lemma machine_events_not_shift (P : Event Action → Prop) ml :
  Forall (λ e, is_machine_event (action e) = 1) ml →
  Forall (λ e, is_shift_event (action e) = 1 → P e) ml.
Proof.
  intros H. eapply Forall_impl; [exact H|].
  intros e. unfold is_shift_event.
  destruct (action e); simpl; intros He Hs; discriminate.
Qed.

Lemma start_lines_on_time d last sl :
  Forall (λ o, is_start_line o = true) sl → Forall (line_on_time d last) sl.
Proof.
  intros H. eapply Forall_impl; [exact H|].
  intros [] Ho; (exact I || discriminate).
Qed.

Lemma boundary_next (k d : Z) :
  (inject_Z (k * d) + inject_Z d == inject_Z ((k + 1) * d))%Q.
Proof.
  rewrite <- inject_Z_plus. replace ((k + 1) * d)%Z with (k * d + d)%Z by lia.
  reflexivity.
Qed.

Lemma inv_timetable_step sys sys' :
  inv_timetable sys → step sys = Some sys' → inv_timetable sys'.
Proof.
  intros (Hcnt & Hrange & Hss & Hes & Hres & Hq & Hout) Hs.
  apply step_inv in Hs as (e & q0 & Heq & ->).
  rewrite Heq in Hcnt, Hss, Hes, Hq. rewrite !count_cons in Hcnt.
  rewrite count_cons in Hss, Hes. apply Forall_cons_1 in Hq as [He Hq0].
  set (s1 := set_simulation (mkSimulation (time e) (Heap.pq_pop Event_gt (e :: q0))) sys).
  destruct (perform_frame (action e) s1) as (_ & Hsc & Hsd).
  pose proof (perform_currentShift (action e) s1) as Hcs.
  pose proof (count_perform is_StartShift (action e) s1 ignores_machines_StartShift) as HS.
  pose proof (count_perform is_EndShift (action e) s1 ignores_machines_EndShift) as HE.
  destruct (perform_cout (action e) s1) as (sl & Hsl & Hcout).
  destruct (perform_queue (action e) s1) as (ml & Hml & Hqueue).
  change (eventQueue (simulation s1)) with (Heap.pq_pop Event_gt (e :: q0))
    in HS, HE, Hqueue.
  rewrite count_pop in HS, HE. rewrite HeapFacts.pq_pop_perm in Hqueue.
  change (currentShift s1) with (currentShift sys) in *.
  change (shiftCount s1) with (shiftCount sys) in *.
  change (shiftDuration s1) with (shiftDuration sys) in *.
  change (cout s1) with (cout sys) in Hcout.
  assert (Hrp : results_printed (perform (action e) s1)
                = results_printed sys + sum_list_with is_results (head_lines (action e) s1)).
  { unfold results_printed. rewrite Hcout, !sum_list_with_app.
    rewrite (start_lines_sum is_results sl)
      by (try exact Hsl; intros [] Ho; (reflexivity || discriminate)).
    lia. }
  unfold inv_timetable, last_shift in *.
  rewrite Hsc, Hsd, Hcs, HS, HE, Hrp, Hcout, Hqueue.
  rewrite !Forall_app.
  pose proof (start_lines_on_time (shiftDuration sys) (Z.max (shiftCount sys) 1) sl Hsl)
    as Hsl'.
  destruct (action e) as [| |self p dl|self p] eqn:Ha;
    cbn [is_StartShift is_EndShift is_shift_event head_lines head_events
         sum_list_with is_results Z.of_nat] in *;
    change (currentShift s1) with (currentShift sys);
    change (shiftCount s1) with (shiftCount sys);
    change (shiftDuration s1) with (shiftDuration sys).
  - (* startShift *)
    assert (Hnow : (time e == inject_Z (currentShift sys * shiftDuration sys))%Q)
      by (apply He; reflexivity).
    split; [lia|]. split; [lia|]. split; [lia|]. split; [lia|]. split; [lia|].
    split; [|split; [exact Hout|split; [|exact Hsl']]].
    + split; [apply machine_events_not_shift, Hml|]. split.
      * constructor; [|constructor]. intros _. cbn [time].
        change (now s1) with (time e). rewrite Hnow. apply boundary_next.
      * apply no_shift_event_pending; lia.
    + constructor; [|constructor]. split; [lia|]. change (now s1) with (time e).
      rewrite Hnow. replace (currentShift sys + 1 - 1)%Z with (currentShift sys) by lia.
      reflexivity.
  - (* endShift *)
    assert (Hnow : (time e == inject_Z (currentShift sys * shiftDuration sys))%Q)
      by (apply He; reflexivity).
    rewrite Z.add_0_r.
    destruct (currentShift sys <? shiftCount sys)%Z eqn:Hlt;
      [apply Z.ltb_lt in Hlt | apply Z.ltb_nlt in Hlt];
      cbn [sum_list_with is_results is_StartShift].
    + split; [lia|]. split; [lia|]. split; [lia|]. split; [lia|]. split; [lia|].
      split; [|split; [exact Hout|split; [|exact Hsl']]].
      * split; [apply machine_events_not_shift, Hml|]. split.
        -- constructor; [|constructor]. intros _. exact Hnow.
        -- apply no_shift_event_pending; lia.
      * constructor; [|constructor]. split; [lia|].
        change (now s1) with (time e). exact Hnow.
    + assert (Hlast : currentShift sys = Z.max (shiftCount sys) 1) by lia.
      split; [lia|]. split; [lia|]. split; [lia|]. split; [lia|]. split; [lia|].
      split; [|split; [exact Hout|split; [|exact Hsl']]].
      * split; [apply machine_events_not_shift, Hml|]. split; [constructor|].
        apply no_shift_event_pending; lia.
      * constructor; [|constructor; [|constructor]]; change (now s1) with (time e).
        -- split; [lia | exact Hnow].
        -- cbn [line_on_time]. rewrite Hnow, <- Hlast. reflexivity.
  - (* retry *)
    rewrite Z.add_0_r.
    split; [lia|]. split; [lia|]. split; [lia|]. split; [lia|]. split; [lia|].
    split; [|split; [exact Hout|split; [constructor|exact Hsl']]].
    split; [apply machine_events_not_shift, Hml|]. split; [constructor|exact Hq0].
  - (* completion *)
    rewrite Z.add_0_r.
    split; [destruct self; simpl; lia|]. split; [lia|]. split; [lia|]. split; [lia|].
    split; [destruct self; simpl; lia|].
    split; [|split; [exact Hout|split; [|exact Hsl']]].
    + split; [apply machine_events_not_shift, Hml|]. split; [constructor|exact Hq0].
    + destruct self; repeat constructor.
Qed.

Lemma inv_timetable_new d c gens :
  inv_timetable (run_entry (ManufacturingSystem_new d c gens)).
Proof.
  unfold inv_timetable, last_shift.
  change (eventQueue (simulation (run_entry (ManufacturingSystem_new d c gens))))
    with (Heap.pq_push Event_gt (mkEvent 0 StartShiftAction) []).
  rewrite !count_push, HeapFacts.pq_push_perm.
  change (results_printed (run_entry (ManufacturingSystem_new d c gens))) with 0.
  change (currentShift (run_entry (ManufacturingSystem_new d c gens))) with 0%Z.
  change (shiftCount (run_entry (ManufacturingSystem_new d c gens))) with c.
  change (cout (run_entry (ManufacturingSystem_new d c gens))) with (@nil Output).
  cbn [action is_StartShift is_EndShift count sum_list_with].
  split; [lia|]. split; [lia|]. split; [lia|]. split; [lia|]. split; [lia|].
  split; [|constructor]. constructor; [|constructor]. intros _.
  rewrite Z.mul_0_l. reflexivity.
Qed.

Lemma inv_timetable_reaches d c gens sys :
  reaches (run_entry (ManufacturingSystem_new d c gens)) sys → inv_timetable sys.
Proof. apply reaches_invariant; [apply inv_timetable_new | apply inv_timetable_step]. Qed.
End TimetableFacts.

Lemma reaches_shift_config (sys0 sys : ManufacturingSystem) :
  reaches sys0 sys →
  shiftCount sys = shiftCount sys0 ∧ shiftDuration sys = shiftDuration sys0.
Proof.
  revert sys. apply reaches_invariant; [split; reflexivity|].
  intros s s' [Hc Hd] Hs. apply step_inv in Hs as (e & q0 & _ & ->).
  destruct (perform_frame (action e)
              (set_simulation (mkSimulation (time e)
                 (Heap.pq_pop Event_gt (e :: q0))) s)) as (_ & -> & ->).
  split; assumption.
Qed.

(** X11: the shifts follow a fixed timetable, back to back from time 0,
    as long as the last boundary, max(shiftCount, 1) * shiftDuration, is of
    magnitude at most 2^53, the range in which the sums of [startShift] are
    exact in [double]: every "shift k started" line carries the time
    (k - 1) * shiftDuration, every "shift k ended" line the time
    k * shiftDuration, with k between 1 and max(shiftCount, 1), the results
    line carries the time max(shiftCount, 1) * shiftDuration, and each of
    these times is an integer of magnitude at most 2^53.  This holds
    whatever the machines do and whatever the sign of [shiftDuration]. *)
Theorem X11_shift_timetable (d c : Z) (gens : MachineId → nat → Q)
    (sys : ManufacturingSystem) :
  (Z.abs (Z.max c 1 * d) <= 2 ^ 53)%Z →
  reaches (run_entry (ManufacturingSystem_new d c gens)) sys →
  Forall (λ o, line_on_time d (Z.max c 1) o ∧ line_exact o) (cout sys).
Proof.
  intros Hrange Hr.
  destruct (inv_timetable_reaches d c gens sys Hr) as (_ & _ & _ & _ & _ & _ & H).
  destruct (reaches_shift_config _ sys Hr) as [Hc Hd].
  unfold last_shift in H. rewrite Hc, Hd in H.
  change (shiftCount (run_entry (ManufacturingSystem_new d c gens))) with c in H.
  change (shiftDuration (run_entry (ManufacturingSystem_new d c gens))) with d in H.
  eapply Forall_impl; [exact H|]. intros o Ho. split; [exact Ho|].
  assert (Hk : ∀ k, (0 <= k <= Z.max c 1)%Z → (Z.abs (k * d) <= 2 ^ 53)%Z).
  { intros k Hk. rewrite Z.abs_mul in Hrange |- *.
    rewrite (Z.abs_eq (Z.max c 1)) in Hrange by lia.
    rewrite (Z.abs_eq k) by lia.
    pose proof (Z.abs_nonneg d).
    apply Z.le_trans with (Z.max c 1 * Z.abs d)%Z; [|exact Hrange].
    apply Z.mul_le_mono_nonneg_r; lia. }
  destruct o as [| | | |k t|k t|n t]; try exact I; cbn [line_on_time line_exact] in *.
  - destruct Ho as [Hb Ht]. exists ((k - 1) * d)%Z. split; [apply Hk; lia | exact Ht].
  - destruct Ho as [Hb Ht]. exists (k * d)%Z. split; [apply Hk; lia | exact Ht].
  - exists (Z.max c 1 * d)%Z. split; [apply Hk; lia | exact Ho].
Qed.

Lemma X11_shift_timetable_witness :
  Forall (λ o, line_on_time 30 (Z.max 2 1) o ∧ line_exact o)
    (cout (ManufacturingSystem_run 40 (ManufacturingSystem_new 30 2 breaks_once))).
Proof.
  apply (X11_shift_timetable 30 2 breaks_once).
  - vm_compute. discriminate.
  - apply simulation_run_reaches.
Defined.

Lemma count_shift_event (q : list (Event Action)) :
  count is_shift_event q = count is_StartShift q + count is_EndShift q.
Proof.
  induction q as [|e q IH]; [reflexivity|].
  rewrite !count_cons, IH. unfold is_shift_event. lia.
Qed.

(** X12: the results are printed exactly once per run.  While a run goes on
    they have been printed at most once, and not at all as long as a shift
    event is pending; once the queue is empty they have been printed, and
    [currentShift] is max(shiftCount, 1): the run has gone through
    [shiftCount] shifts, or through one if [shiftCount] is below one. *)
Theorem X12_results_printed_once (d c : Z) (gens : MachineId → nat → Q)
    (sys : ManufacturingSystem) :
  reaches (run_entry (ManufacturingSystem_new d c gens)) sys →
  results_printed sys
  + count is_shift_event (eventQueue (simulation sys)) = 1 ∧
  (eventQueue (simulation sys) = [] →
   results_printed sys = 1 ∧ currentShift sys = Z.max c 1).
Proof.
  intros Hr.
  destruct (inv_timetable_reaches d c gens sys Hr) as (Hcnt & _ & _ & _ & Hres & _).
  destruct (reaches_shift_config _ sys Hr) as [Hc _].
  unfold last_shift in Hres. rewrite Hc in Hres.
  pose proof (count_shift_event (eventQueue (simulation sys))) as Hsplit.
  split; [lia|]. intros Hq. rewrite Hq in Hcnt. simpl in Hcnt.
  split; [lia | apply Hres; lia].
Qed.

Lemma X12_results_printed_once_witness :
  let fin := ManufacturingSystem_run 1209 (ManufacturingSystem_new 30 2 breaks_once) in
  eventQueue (simulation fin) = [] ∧
  results_printed fin = 1 ∧ currentShift fin = Z.max 2 1.
Proof.
  intros fin.
  assert (Hq : eventQueue (simulation fin) = []) by (vm_compute; reflexivity).
  split; [exact Hq|].
  exact (proj2 (X12_results_printed_once 30 2 breaks_once fin
                  (simulation_run_reaches 1209 _)) Hq).
Defined.

Lemma perform_productQueue a sys :
  length (productQueue sys)
  ≤ length (productQueue (perform a sys)) + is_StartShift a
    + match a with CompleteAction Packaging _ => 1 | _ => 0 end.
Proof.
  assert (Htail : ∀ l : list string, length l ≤ length (tail l) + 1)
    by (intros [|x l]; simpl; lia).
  destruct a as [| |self p d|self p].
  - change (perform StartShiftAction sys) with (startShift sys). unfold startShift.
    match goal with |- context [startProduction ?s] =>
      destruct (startProduction_frame s) as (_ & _ & _ & _ & _ & -> & _) end.
    simpl. pose proof (Htail (productQueue sys)). lia.
  - change (perform EndShiftAction sys) with (endShift sys). unfold endShift.
    destruct (_ <? _)%Z; simpl; lia.
  - change (perform (RetryAction self p d) sys) with (call_startProcessing self p d sys).
    destruct (call_startProcessing_frame self p d sys) as (_ & _ & _ & _ & _ & -> & _).
    simpl. lia.
  - change (perform (CompleteAction self p) sys)
      with (onProcessComplete self p (finishProcessing self p sys)).
    destruct self; cbn [onProcessComplete];
      try (unfold startMachining, startAssembly, startQualityControl, startPackaging;
           match goal with |- context [call_startProcessing ?i ?p ?d ?s] =>
             destruct (call_startProcessing_frame i p d s)
               as (_ & _ & _ & _ & _ & -> & _) end;
           simpl; lia).
    unfold finishProduct. destruct (Qltb _ _); [|simpl; lia].
    match goal with |- context [startProduction ?s] =>
      destruct (startProduction_frame s) as (_ & _ & _ & _ & _ & -> & _) end.
    simpl. pose proof (Htail (productQueue sys)). lia.
Qed.

(** X13: the line is fed one unit at a time, at the start of a shift and
    when a product is finished, and nowhere else: the number of units taken
    from the product queue of 200 never exceeds the number of shifts
    started plus the number of products completed. *)
Theorem X13_line_fed_per_shift_and_product (d c : Z) (gens : MachineId → nat → Q)
    (sys : ManufacturingSystem) :
  reaches (run_entry (ManufacturingSystem_new d c gens)) sys →
  (200 <= Z.of_nat (length (productQueue sys))
          + currentShift sys + productsCompleted sys)%Z.
Proof.
  revert sys. apply reaches_invariant; [vm_compute; discriminate|].
  intros s s' IH Hs. apply step_inv in Hs as (e & q0 & _ & ->).
  match goal with |- context [perform ?a ?s0] =>
    pose proof (perform_productQueue a s0) as Hq;
    rewrite (perform_currentShift a s0), (perform_productsCompleted a s0) end.
  change (productQueue (set_simulation _ s)) with (productQueue s) in Hq.
  change (currentShift (set_simulation _ s)) with (currentShift s).
  change (productsCompleted (set_simulation _ s)) with (productsCompleted s).
  destruct (action e) as [| |self p dl|[] p]; simpl in Hq |- *; lia.
Qed.

Lemma X13_line_fed_per_shift_and_product_witness :
  let sys := ManufacturingSystem_run 40 (ManufacturingSystem_new 30 2 never_breaks) in
  (200 <= Z.of_nat (length (productQueue sys))
          + currentShift sys + productsCompleted sys)%Z.
Proof.
  exact (X13_line_fed_per_shift_and_product 30 2 never_breaks _
           (simulation_run_reaches 40 _)).
Defined.
